(** * SlideGen: a shallow embedding of [slide_edit.py]

    The script extracts the text runs of every slide of an unpacked
    presentation ([text_parse], [generate_text]), asks a text-editing
    service for replacement lines, substitutes them into the slide files
    with [re.sub] ([edit_text]) and finally regenerates the pictures
    ([edit_images]).

    Python values are modelled as follows.
    - [str] is a list of characters ([list ascii], so the characters
      are those with a code below 256); a string literal is coerced
      with [list_ascii_of_string].
    - An exception is a value of [exn]; a computation that can raise
      returns a [result].
    - The working directory is a finite map from paths to file
      contents, each content the text Python reads from the file and
      writes back to it (the files hold no carriage return).
    - The library functions the script calls ([str.split], [str.join],
      [re.sub], [Element.findall], [os.path.join]) are given models of
      their own.  [ElementTree.fromstring], the two remote services
      and the resampling of a picture are parameters of the functions
      that call them; a parser for a fragment of XML is there to run
      the script on concrete slides.
    - [print] calls are not modelled: no function of the script reads
      what was printed. *)

From Stdlib Require Import Ascii String.
From Equations Require Import Equations.
From stdpp Require Import base decidable option list gmap strings pretty.

Set Default Proof Using "Type".

Abbreviation str := (list ascii).

Coercion list_ascii_of_string : string >-> list.

(** ** Exceptions and results *)

Inductive exn : Type :=
| re_error            (* re.error: the pattern does not compile *)
| TypeError
| IndexError
| KeyError
| FileNotFoundError
| ParseError          (* xml.etree.ElementTree.ParseError *)
| ServiceError        (* a failure of a remote call or of image decoding *)
| OutsideModel.       (* the input leaves the fragment a library model covers *)

Inductive result (A : Type) : Type :=
| Ok (a : A)
| Raise (e : exn).
Arguments Ok {A} a.
Arguments Raise {A} e.

#[global] Instance result_ret : MRet result := fun A a => Ok a.

#[global] Instance result_bind : MBind result := fun A B f m =>
  match m with
  | Ok a => f a
  | Raise e => Raise e
  end.

Definition of_option {A} (e : exn) (o : option A) : result A :=
  match o with
  | Some a => Ok a
  | None => Raise e
  end.

#[global] Instance exn_eq_dec : EqDecision exn.
Proof. solve_decision. Defined.

#[global] Instance result_eq_dec {A} `{EqDecision A} : EqDecision (result A).
Proof. solve_decision. Defined.

(** ** Strings *)

Module Str.

Definition newline : ascii := "010"%char.

(** [s.split("\n")]: the pieces between the newlines, at least one. *)
Fixpoint split_go (cur : str) (s : str) : list str :=
  match s with
  | [] => [reverse cur]
  | c :: s' =>
      if decide (c = newline) then reverse cur :: split_go [] s'
      else split_go (c :: cur) s'
  end.

Definition split (s : str) : list str := split_go [] s.

(** ["\n".join(l)] for a list of strings. *)
Fixpoint join (l : list str) : str :=
  match l with
  | [] => []
  | [x] => x
  | x :: l' => x ++ newline :: join l'
  end.

(** ["\n".join(l)] where an item may be [None]: joining raises
    [TypeError] at the first item that is not a string. *)
Fixpoint strings (l : list (option str)) : result (list str) :=
  match l with
  | [] => Ok []
  | None :: _ => Raise TypeError
  | Some x :: l' => xs ← strings l'; Ok (x :: xs)
  end.

Definition join_items (l : list (option str)) : result str :=
  xs ← strings l; Ok (join xs).

(** [s[:n]] *)
Definition slice_to (n : nat) (s : str) : str := take n s.

(** [str(n)] for a natural number. *)
Definition of_nat (n : nat) : str := list_ascii_of_string (pretty n).

End Str.

(** ** Regular expressions: a model of [re.sub]

    [re.sub(pattern, repl, string)] compiles [pattern], then replaces the
    leftmost non-overlapping matches of it in [string] by [repl].  The
    model covers the patterns built from literal characters, [.], [^],
    [$], escaped punctuation, groups, [|] and the greedy quantifiers
    [*], [+] and [?], and the replacements without a backslash; on
    anything else it answers [OutsideModel].  Matching is the
    backtracking search of CPython's engine: alternatives are tried
    left to right, a quantifier takes as many iterations as it can
    before it gives one back, and an iteration that consumed nothing
    ends the repetition. *)

Module Re.

Inductive regex : Type :=
| Eps
| Lit (c : ascii)
| Any
| Bol
| Eol
| Cat (r1 r2 : regex)
| Alt (r1 r2 : regex)
| Rep (lo : nat) (hi : option nat) (r : regex)
| Group (r : regex).

(** *** Parsing a pattern *)

Definition is_digit (c : ascii) : bool :=
  let n := nat_of_ascii c in (48 <=? n) && (n <=? 57).

Definition is_letter (c : ascii) : bool :=
  let n := nat_of_ascii c in
  ((65 <=? n) && (n <=? 90)) || ((97 <=? n) && (n <=? 122)).

Definition backslash : ascii := "092"%char.

(** One open group (or the top level) during parsing: the alternatives
    that are complete, and the items of the current alternative, both
    latest first. *)
Record frame : Type := Frame { branches : list regex; items : list regex }.

Definition seq_of (rev_items : list regex) : regex :=
  foldl (fun acc r => Cat r acc) Eps rev_items.

Definition close_frame (f : frame) : regex :=
  foldl (fun acc r => Alt r acc) (seq_of (items f)) (branches f).

Definition push_item (r : regex) (f : frame) : frame :=
  Frame (branches f) (r :: items f).

Definition is_repeat (r : regex) : bool :=
  match r with Rep _ _ _ => true | _ => false end.

Definition is_at (r : regex) : bool :=
  match r with Bol | Eol => true | _ => false end.

(** A quantifier applies to the item before it; there must be one, it
    must not be an anchor, and it must not be a repetition already.  A
    quantifier followed by [?] or [+] is lazy or possessive. *)
Definition quantify (lo : nat) (hi : option nat) (f : frame) (rest : str)
  : result frame :=
  match items f with
  | [] => Raise re_error
  | r :: rs =>
      if is_at r then Raise re_error
      else if is_repeat r then Raise re_error
      else match rest with
           | c :: _ =>
               if bool_decide (c = "?"%char ∨ c = "+"%char) then Raise OutsideModel
               else Ok (Frame (branches f) (Rep lo hi r :: rs))
           | [] => Ok (Frame (branches f) (Rep lo hi r :: rs))
           end
  end.

(** [parse_go top stack s]: [top] is the innermost open frame, [stack]
    the frames around it, [s] what is left of the pattern. *)
Fixpoint parse_go (top : frame) (stack : list frame) (s : str) : result regex :=
  match s with
  | [] =>
      match stack with
      | [] => Ok (close_frame top)
      | _ :: _ => Raise re_error        (* missing ), unterminated subpattern *)
      end
  | c :: s' =>
      if bool_decide (c = backslash) then
        match s' with
        | [] => Raise re_error          (* bad escape (end of pattern) *)
        | e :: s'' =>
            if is_letter e || is_digit e then Raise OutsideModel
            else parse_go (push_item (Lit e) top) stack s''
        end
      else if bool_decide (c = "("%char) then
        match s' with
        | "?"%char :: _ => Raise OutsideModel
        | _ => parse_go (Frame [] []) (top :: stack) s'
        end
      else if bool_decide (c = ")"%char) then
        match stack with
        | [] => Raise re_error          (* unbalanced parenthesis *)
        | f :: stack' =>
            parse_go (push_item (Group (close_frame top)) f) stack' s'
        end
      else if bool_decide (c = "|"%char) then
        parse_go (Frame (seq_of (items top) :: branches top) []) stack s'
      else if bool_decide (c = "*"%char) then
        f ← quantify 0 None top s'; parse_go f stack s'
      else if bool_decide (c = "+"%char) then
        f ← quantify 1 None top s'; parse_go f stack s'
      else if bool_decide (c = "?"%char) then
        f ← quantify 0 (Some 1) top s'; parse_go f stack s'
      else if bool_decide (c = "."%char) then
        parse_go (push_item Any top) stack s'
      else if bool_decide (c = "^"%char) then
        parse_go (push_item Bol top) stack s'
      else if bool_decide (c = "$"%char) then
        parse_go (push_item Eol top) stack s'
      else if bool_decide (c = "["%char ∨ c = "{"%char) then
        Raise OutsideModel
      else parse_go (push_item (Lit c) top) stack s'
  end.

Definition parse (pattern : str) : result regex :=
  parse_go (Frame [] []) [] pattern.

(** *** Matching

    A position in the subject is the suffix that starts there; two
    suffixes of one subject are the same position when they have the
    same length.  [m r s k] matches [r] at [s] and hands every position
    where the match can end, in the engine's order of preference, to
    the continuation [k], until [k] accepts one. *)

Definition cont : Type := str -> option str.

Definition below (count : nat) (hi : option nat) : bool :=
  match hi with
  | None => true
  | Some h => count <? h
  end.

Definition same_pos (last : option nat) (s : str) : bool :=
  bool_decide (last = Some (length s)).

(** The repetition loop.  [count] iterations are done; [last] is the
    position where the latest optional iteration started.  Below [lo]
    iterations the body must match; after that the body is tried again
    unless [hi] is reached or the latest iteration consumed nothing, and
    the rest of the pattern is tried when the body, followed by all that
    comes after, fails.  [fuel] bounds the number of iterations in a
    row. *)
Fixpoint until (body : str -> cont -> option str) (lo : nat) (hi : option nat)
    (fuel count : nat) (last : option nat) (s : str) (k : cont) : option str :=
  if count <? lo then
    match fuel with
    | 0 => None
    | S fuel' =>
        body s (fun s' => until body lo hi fuel' (S count) last s' k)
    end
  else if below count hi && negb (same_pos last s) then
    match fuel with
    | 0 => k s
    | S fuel' =>
        match body s (fun s' =>
                until body lo hi fuel' (S count) (Some (length s)) s' k) with
        | Some e => Some e
        | None => k s
        end
    end
  else k s.

(** [total] is the length of the whole subject: [^] matches only where
    the whole subject is still ahead. *)
Fixpoint m (total : nat) (r : regex) (s : str) (k : cont) : option str :=
  match r with
  | Eps => k s
  | Lit c =>
      match s with
      | c' :: s' => if bool_decide (c' = c) then k s' else None
      | [] => None
      end
  | Any =>
      match s with
      | c' :: s' => if bool_decide (c' = Str.newline) then None else k s'
      | [] => None
      end
  | Bol => if length s =? total then k s else None
  | Eol =>
      match s with
      | [] => k s
      | [c] => if bool_decide (c = Str.newline) then k s else None
      | _ => None
      end
  | Cat r1 r2 => m total r1 s (fun s' => m total r2 s' k)
  | Alt r1 r2 =>
      match m total r1 s k with
      | Some e => Some e
      | None => m total r2 s k
      end
  | Rep lo hi r => until (m total r) lo hi (lo + length s + 1) 0 None s k
  | Group r => m total r s k
  end.

(** A match of the whole pattern at [s]; with [must_advance] an empty
    match is refused. *)
Definition match_at (total : nat) (r : regex) (s : str) (must_advance : bool)
  : option str :=
  m total r s (fun s' =>
    if must_advance && (length s' =? length s) then None else Some s').

(** *** Substitution

    [sub_go total r repl s skip] is the output for the part [s] of the
    subject, of which the first [skip] characters belong to the match
    found last.  At a fresh position the pattern is tried; where it
    fails the character is copied.  After an empty match the engine
    searches again at the same place for a match that is not empty. *)
Fixpoint sub_go (total : nat) (r : regex) (repl : str) (s : str) (skip : nat)
  : str :=
  match skip with
  | S n =>
      match s with
      | [] => []
      | _ :: s' => sub_go total r repl s' n
      end
  | 0 =>
      match match_at total r s false with
      | None =>
          match s with
          | [] => []
          | c :: s' => c :: sub_go total r repl s' 0
          end
      | Some rest =>
          match length s - length rest with
          | S n =>
              repl ++ match s with
                      | [] => []
                      | _ :: s' => sub_go total r repl s' n
                      end
          | 0 =>
              repl ++
              match match_at total r s true with
              | None =>
                  match s with
                  | [] => []
                  | c :: s' => c :: sub_go total r repl s' 0
                  end
              | Some rest2 =>
                  repl ++ match s with
                          | [] => []
                          | _ :: s' =>
                              sub_go total r repl s'
                                (length s - length rest2 - 1)
                          end
              end
          end
      end
  end.

Definition has_backslash (repl : str) : bool :=
  bool_decide (backslash ∈ repl).

(** [re.sub(pattern, repl, string)] *)
Definition sub (pattern repl string : str) : result str :=
  r ← parse pattern;
  if has_backslash repl then Raise OutsideModel
  else Ok (sub_go (length string) r repl string 0).

End Re.

(** ** Element trees: the part of [xml.etree.ElementTree] the script uses *)

Module ET.

(** An element: its tag in the form [{uri}local], its attributes, the
    text before its first child ([None] when there is none), its
    children, and the text after its end tag. *)
#[warnings="-register-all"]
Inductive element : Type :=
| Element (tag : str) (attrib : list (str * str)) (text : option str)
          (children : list element) (tail : option str).

Definition tag (e : element) : str :=
  match e with Element t _ _ _ _ => t end.

Definition text (e : element) : option str :=
  match e with Element _ _ t _ _ => t end.

Definition children (e : element) : list element :=
  match e with Element _ _ _ cs _ => cs end.

(** [e.iter()]: the element and all its descendants, in document order. *)
Fixpoint iter (e : element) : list element :=
  match e with
  | Element _ _ _ cs _ => e :: concat (map iter cs)
  end.

(** The elements below [e], [e] itself excluded. *)
Definition descendants (e : element) : list element :=
  concat (map iter (children e)).

(** [root.findall(".//p:name", namespaces={p: uri})]: the descendants of
    [root] whose tag is [{uri}name], in document order. *)
Definition qname (uri name : str) : str := "{" ++ uri ++ "}" ++ name.

Definition findall_descendants (uri name : str) (root : element)
  : list element :=
  filter (fun e => tag e = qname uri name) (descendants root).

End ET.

(** ** A parser for a fragment of XML

    [ElementTree.fromstring] stays a parameter of the extraction.  For
    running the script on concrete slides this module gives a parser
    for the documents made of an optional XML declaration, elements
    with attributes and namespace declarations, and character data.
    Entity and character references, comments, CDATA sections,
    processing instructions, document types and carriage returns are
    answered with [OutsideModel]. *)

Module Xml.

Inductive event : Type :=
| EStart (name : str) (attrs : list (str * str))
| EEnd (name : str)
| EData (data : str).

Definition tab : ascii := "009"%char.
Definition dquote : ascii := "034"%char.
Definition squote : ascii := "039"%char.

Definition is_space (c : ascii) : bool :=
  bool_decide (c = " "%char ∨ c = tab ∨ c = Str.newline).

Definition is_name_start (c : ascii) : bool :=
  Re.is_letter c || bool_decide (c = "_"%char).

Definition is_name_char (c : ascii) : bool :=
  Re.is_letter c || Re.is_digit c
  || bool_decide (c = "_"%char ∨ c = "-"%char ∨ c = "."%char ∨ c = ":"%char).

(** A character allowed in character data and attribute values, apart
    from the delimiters. *)
Definition is_plain (c : ascii) : bool := 32 <=? nat_of_ascii c.

Inductive lstate : Type :=
| InText (acc : str)
| TagOpen
| StartName (acc : str)
| InTag (name : str) (attrs : list (str * str)) (ws : bool)
| AttrName (name : str) (attrs : list (str * str)) (acc : str)
| AttrQuote (name : str) (attrs : list (str * str)) (aname : str)
| AttrVal (name : str) (attrs : list (str * str)) (aname : str)
          (q : ascii) (acc : str)
| SelfClose (name : str) (attrs : list (str * str))
| EndOpen
| EndName (acc : str)
| EndWs (name : str).

Definition flush (acc : str) : list event :=
  match acc with
  | [] => []
  | _ :: _ => [EData (reverse acc)]
  end.

Definition emit (evs : list event) (r : result (list event))
  : result (list event) :=
  rest ← r; Ok (evs ++ rest).

(** The tokens of a document, as the events a parser reports.
    Accumulators hold their characters latest first. *)
Fixpoint lex (st : lstate) (s : str) : result (list event) :=
  match s with
  | [] =>
      match st with
      | InText acc => Ok (flush acc)
      | _ => Raise ParseError
      end
  | c :: s' =>
      match st with
      | InText acc =>
          if bool_decide (c = "<"%char) then emit (flush acc) (lex TagOpen s')
          else if bool_decide (c = "&"%char) then Raise OutsideModel
          else if bool_decide (c = ">"%char) then
            match acc with
            | "]"%char :: "]"%char :: _ => Raise ParseError
            | _ => lex (InText (c :: acc)) s'
            end
          else if is_plain c || bool_decide (c = tab ∨ c = Str.newline)
          then lex (InText (c :: acc)) s'
          else Raise OutsideModel
      | TagOpen =>
          if bool_decide (c = "/"%char) then lex EndOpen s'
          else if is_name_start c then lex (StartName [c]) s'
          else if bool_decide (c = "?"%char ∨ c = "!"%char) then Raise OutsideModel
          else if is_plain c && negb (is_name_char c) && (nat_of_ascii c <? 128)
          then Raise ParseError
          else Raise OutsideModel
      | StartName acc =>
          if is_name_char c then lex (StartName (c :: acc)) s'
          else if is_space c then lex (InTag (reverse acc) [] true) s'
          else if bool_decide (c = ">"%char)
          then emit [EStart (reverse acc) []] (lex (InText []) s')
          else if bool_decide (c = "/"%char) then lex (SelfClose (reverse acc) []) s'
          else if nat_of_ascii c <? 128 then Raise ParseError
          else Raise OutsideModel
      | InTag name attrs ws =>
          if is_space c then lex (InTag name attrs true) s'
          else if bool_decide (c = ">"%char)
          then emit [EStart name (reverse attrs)] (lex (InText []) s')
          else if bool_decide (c = "/"%char) then lex (SelfClose name attrs) s'
          else if is_name_start c then
            if ws then lex (AttrName name attrs [c]) s' else Raise ParseError
          else if nat_of_ascii c <? 128 then Raise ParseError
          else Raise OutsideModel
      | AttrName name attrs acc =>
          if is_name_char c then lex (AttrName name attrs (c :: acc)) s'
          else if bool_decide (c = "="%char)
          then lex (AttrQuote name attrs (reverse acc)) s'
          else if is_space c then Raise OutsideModel
          else if nat_of_ascii c <? 128 then Raise ParseError
          else Raise OutsideModel
      | AttrQuote name attrs aname =>
          if bool_decide (c = dquote ∨ c = squote)
          then lex (AttrVal name attrs aname c []) s'
          else if is_space c then Raise OutsideModel
          else Raise ParseError
      | AttrVal name attrs aname q acc =>
          if bool_decide (c = q)
          then lex (InTag name ((aname, reverse acc) :: attrs) false) s'
          else if bool_decide (c = "<"%char) then Raise ParseError
          else if bool_decide (c = "&"%char) then Raise OutsideModel
          else if is_plain c then lex (AttrVal name attrs aname q (c :: acc)) s'
          else Raise OutsideModel
      | SelfClose name attrs =>
          if bool_decide (c = ">"%char)
          then emit [EStart name (reverse attrs); EEnd name] (lex (InText []) s')
          else Raise ParseError
      | EndOpen =>
          if is_name_start c then lex (EndName [c]) s'
          else if nat_of_ascii c <? 128 then Raise ParseError
          else Raise OutsideModel
      | EndName acc =>
          if is_name_char c then lex (EndName (c :: acc)) s'
          else if bool_decide (c = ">"%char)
          then emit [EEnd (reverse acc)] (lex (InText []) s')
          else if is_space c then lex (EndWs (reverse acc)) s'
          else if nat_of_ascii c <? 128 then Raise ParseError
          else Raise OutsideModel
      | EndWs name =>
          if bool_decide (c = ">"%char)
          then emit [EEnd name] (lex (InText []) s')
          else if is_space c then lex (EndWs name) s'
          else Raise ParseError
      end
  end.

(** *** Names and namespaces *)

(** A scope: the namespace bound to each prefix, the default namespace
    under the empty prefix. *)
Definition scope : Type := list (str * str).

Definition lookup_ns (prefix : str) (sc : scope) : option str :=
  '(_, b) ← list_find (fun b => b.1 = prefix) sc; Some (b.2).

Definition xml_uri : str := "http://www.w3.org/XML/1998/namespace".

Definition colon : ascii := ":"%char.

(** The prefix and the local part of a name. *)
Fixpoint split_name_go (acc : str) (s : str) : option str * str :=
  match s with
  | [] => (None, reverse acc)
  | c :: s' =>
      if bool_decide (c = colon) then (Some (reverse acc), s')
      else split_name_go (c :: acc) s'
  end.

Definition good_ncname (s : str) : bool :=
  match s with
  | [] => false
  | c :: _ => is_name_start c && bool_decide (colon ∉ s)
  end.

Definition split_name (raw : str) : result (option str * str) :=
  match split_name_go [] raw with
  | (None, l) => if good_ncname l then Ok (None, l) else Raise OutsideModel
  | (Some p, l) =>
      if good_ncname p && good_ncname l then Ok (Some p, l)
      else Raise OutsideModel
  end.

(** The namespace declarations among the attributes of a start tag are
    added to the scope. *)
Fixpoint declare (attrs : list (str * str)) (sc : scope) : result scope :=
  match attrs with
  | [] => Ok sc
  | (raw, v) :: attrs' =>
      '(p, l) ← split_name raw;
      match p with
      | None =>
          if bool_decide (l = ("xmlns" : str)) then declare attrs' (([], v) :: sc)
          else declare attrs' sc
      | Some p =>
          if bool_decide (p = ("xmlns" : str)) then
            if bool_decide (v = [] ∨ l = ("xml" : str) ∨ l = ("xmlns" : str)
                            ∨ v = xml_uri)
            then Raise OutsideModel
            else declare attrs' ((l, v) :: sc)
          else declare attrs' sc
      end
  end.

Definition resolve_tag (sc : scope) (raw : str) : result str :=
  '(p, l) ← split_name raw;
  match p with
  | None =>
      match lookup_ns [] sc with
      | Some ((_ :: _) as uri) => Ok (ET.qname uri l)
      | _ => Ok l
      end
  | Some p =>
      if bool_decide (p = ("xmlns" : str)) then Raise OutsideModel
      else uri ← of_option ParseError (lookup_ns p sc); Ok (ET.qname uri l)
  end.

(** The attributes other than namespace declarations, with their names
    resolved; an attribute without prefix is in no namespace. *)
Fixpoint resolve_attrs (sc : scope) (attrs : list (str * str))
  : result (list (str * str)) :=
  match attrs with
  | [] => Ok []
  | (raw, v) :: attrs' =>
      '(p, l) ← split_name raw;
      rest ← resolve_attrs sc attrs';
      match p with
      | None =>
          if bool_decide (l = ("xmlns" : str)) then Ok rest else Ok ((l, v) :: rest)
      | Some p =>
          if bool_decide (p = ("xmlns" : str)) then Ok rest
          else uri ← of_option ParseError (lookup_ns p sc);
               Ok ((ET.qname uri l, v) :: rest)
      end
  end.

(** *** Building the tree *)

(** An element whose end tag is still to come; its children are kept
    latest first. *)
Record open_elem : Type := Open {
  o_raw : str;
  o_tag : str;
  o_attrib : list (str * str);
  o_text : option str;
  o_children : list ET.element;
  o_scope : scope
}.

Definition set_tail (d : str) (e : ET.element) : ET.element :=
  match e with
  | ET.Element t a x cs _ => ET.Element t a x cs (Some d)
  end.

Definition add_child (e : ET.element) (o : open_elem) : open_elem :=
  Open (o_raw o) (o_tag o) (o_attrib o) (o_text o) (e :: o_children o)
       (o_scope o).

(** Character data goes to the text of the open element when it has no
    child yet, and to the tail of its latest child otherwise. *)
Definition add_data (d : str) (o : open_elem) : open_elem :=
  match o_children o with
  | [] => Open (o_raw o) (o_tag o) (o_attrib o) (Some d) [] (o_scope o)
  | ch :: chs =>
      Open (o_raw o) (o_tag o) (o_attrib o) (o_text o) (set_tail d ch :: chs)
           (o_scope o)
  end.

Definition close (o : open_elem) : ET.element :=
  ET.Element (o_tag o) (o_attrib o) (o_text o) (reverse (o_children o)) None.

Definition no_dup (l : list str) : bool := bool_decide (NoDup l).

Definition open_tag (sc : scope) (raw : str) (attrs : list (str * str))
  : result open_elem :=
  if no_dup (attrs.*1) then
    sc' ← declare attrs sc;
    tag ← resolve_tag sc' raw;
    attrib ← resolve_attrs sc' attrs;
    if no_dup (attrib.*1) then Ok (Open raw tag attrib None [] sc')
    else Raise ParseError
  else Raise ParseError.

Fixpoint build (stack : list open_elem) (root : option ET.element)
    (evs : list event) : result ET.element :=
  match evs with
  | [] =>
      match stack, root with
      | [], Some r => Ok r
      | _, _ => Raise ParseError
      end
  | EData d :: evs' =>
      match stack with
      | [] =>
          if forallb is_space d then build [] root evs' else Raise ParseError
      | o :: stack' => build (add_data d o :: stack') root evs'
      end
  | EStart raw attrs :: evs' =>
      match stack, root with
      | [], Some _ => Raise ParseError
      | [], None =>
          o ← open_tag [(("xml" : str), xml_uri)] raw attrs;
          build [o] root evs'
      | p :: _, _ =>
          o ← open_tag (o_scope p) raw attrs;
          build (o :: stack) root evs'
      end
  | EEnd raw :: evs' =>
      match stack with
      | [] => Raise ParseError
      | o :: stack' =>
          if bool_decide (raw = o_raw o) then
            match stack' with
            | [] => build [] (Some (close o)) evs'
            | p :: stack'' => build (add_child (close o) p :: stack'') root evs'
            end
          else Raise ParseError
      end
  end.

(** The declarations a document may start with. *)
Definition declarations : list str :=
  [ "<?xml version=" ++ dquote :: "1.0" ++ dquote :: " encoding="
      ++ dquote :: "UTF-8" ++ dquote :: " standalone=" ++ dquote :: "yes"
      ++ dquote :: "?>";
    "<?xml version=" ++ dquote :: "1.0" ++ dquote :: " encoding="
      ++ dquote :: "UTF-8" ++ dquote :: "?>";
    "<?xml version=" ++ dquote :: "1.0" ++ dquote :: "?>" ].

Fixpoint strip_prefix (p s : str) : option str :=
  match p, s with
  | [], _ => Some s
  | c :: p', c' :: s' => if bool_decide (c = c') then strip_prefix p' s' else None
  | _ :: _, [] => None
  end.

Definition strip_declaration (s : str) : str :=
  match list_find (fun d => is_Some (strip_prefix d s)) declarations with
  | Some (_, d) => drop (length d) s
  | None => s
  end.

Definition fromstring (s : str) : result ET.element :=
  evs ← lex (InText []) (strip_declaration s);
  build [] None evs.

End Xml.

(** ** The script *)

Definition drawingml : str :=
  "http://schemas.openxmlformats.org/drawingml/2006/main".

(** [f"{save_dir}/ppt/slides/slide{i}.xml"] *)
Definition slide_path (save_dir : str) (i : nat) : str :=
  save_dir ++ "/ppt/slides/slide" ++ Str.of_nat i ++ ".xml".

(** [re.sub(xml_text[j], responses[j], content)] with the pattern as
    extracted: an item that is [None] is not a pattern. *)
Definition re_sub (pattern : option str) (repl content : str) : result str :=
  match pattern with
  | None => Raise TypeError
  | Some p => Re.sub p repl content
  end.

(** The inner loop of [edit_text]:
    [for j in range(n, n+n_slide): content = re.sub(...)]. *)
Fixpoint subst_runs (xml_text : list (option str)) (responses : list str)
    (j n_slide : nat) (content : str) : result str :=
  match n_slide with
  | 0 => Ok content
  | S n_slide' =>
      pattern ← of_option IndexError (xml_text !! j);
      repl ← of_option IndexError (responses !! j);
      content' ← re_sub pattern repl content;
      subst_runs xml_text responses (S j) n_slide' content'
  end.

(** The outer loop of [edit_text], from slide index [i] (counted from 0)
    and offset [n].  A slide file is written once all its runs are
    substituted; an exception leaves the files of the slides before it
    rewritten and the others as they were. *)
Fixpoint edit_slides (save_dir : str) (xml_text : list (option str))
    (responses : list str) (i n : nat) (attrs_per_slide : list nat)
    (fs : gmap str str) : gmap str str * result unit :=
  match attrs_per_slide with
  | [] => (fs, Ok ())
  | n_slide :: rest =>
      match fs !! slide_path save_dir (i + 1) with
      | None => (fs, Raise FileNotFoundError)
      | Some content =>
          match subst_runs xml_text responses n n_slide content with
          | Raise e => (fs, Raise e)
          | Ok content' =>
              edit_slides save_dir xml_text responses (S i) (n + n_slide) rest
                (<[slide_path save_dir (i + 1) := content']> fs)
          end
      end
  end.

(** [responses = response.split("\n")], padded with empty strings when
    there are fewer of them than text elements. *)
Definition split_responses (xml_text : list (option str)) (response : str)
  : list str :=
  let responses := Str.split response in
  if length responses <? length xml_text
  then responses ++ replicate (length xml_text - length responses) []
  else responses.

Definition edit_text (save_dir : str) (xml_text : list (option str))
    (response : str) (attrs_per_slide : list nat) (fs : gmap str str)
  : gmap str str * result unit :=
  edit_slides save_dir xml_text (split_responses xml_text response) 0 0
    attrs_per_slide fs.

Section Extraction.

(** [ElementTree.fromstring] and the call to the text-editing service
    ([openai.Edit.create], of which the script keeps the text of the
    first choice) are parameters of the extraction. *)
Context (ET_fromstring : str -> result ET.element).
Context {temperature : Type}.
Context (Edit_create : str -> str -> temperature -> result str).

Definition text_parse (xml_string : str) : result (list (option str)) :=
  tree ← ET_fromstring xml_string;
  let a_text := ET.findall_descendants drawingml "t" tree in
  let elems := map ET.text a_text in
  Ok elems.

(** The loop of [generate_text] over the slides [i], [i+1], ...,
    [count] of them. *)
Fixpoint extract (save_dir : str) (fs : gmap str str) (i count : nat)
    (xml_text : list (option str)) (attrs_per_slide : list nat)
  : result (list (option str) * list nat) :=
  match count with
  | 0 => Ok (xml_text, attrs_per_slide)
  | S count' =>
      xml_string ← of_option FileNotFoundError (fs !! slide_path save_dir i);
      slide_text ← text_parse xml_string;
      extract save_dir fs (S i) count'
        (xml_text ++ slide_text) (attrs_per_slide ++ [length slide_text])
  end.

Definition instruction (prompt : str) (n : nat) : str :=
  prompt ++ ". The new string must contain " ++ Str.of_nat n ++ " lines.".

Definition generate_text (save_dir : str) (num_slides : nat) (prompt : str)
    (temp : temperature) (fs : gmap str str)
  : result (str * list (option str) * list nat) :=
  '(xml_text, attrs_per_slide) ← extract save_dir fs 1 num_slides [] [];
  inputstr ← Str.join_items xml_text;
  response ← Edit_create inputstr (instruction prompt (length xml_text)) temp;
  Ok (response, xml_text, attrs_per_slide).

(** The text stage of the main program: [generate_text], then
    [edit_text] on what it returned. *)
Definition text_stage (save_dir : str) (num_slides : nat) (prompt : str)
    (temp : temperature) (fs : gmap str str) : gmap str str * result unit :=
  match generate_text save_dir num_slides prompt temp fs with
  | Raise e => (fs, Raise e)
  | Ok (response, xml_text, attrs_per_slide) =>
      edit_text save_dir xml_text response attrs_per_slide fs
  end.

End Extraction.

(** ** Pictures *)

(** A decoded picture: its size in pixels, (width, height), and its
    pixel data, which stay uninterpreted.  An image part's blob is
    modelled by the picture it encodes. *)
Record image : Type := Image { size : nat * nat; data : str }.

Inductive shape_type : Type :=
| AUTO_SHAPE
| PICTURE
| PLACEHOLDER
| TEXT_BOX
| OTHER_SHAPE.

#[global] Instance shape_type_eq_dec : EqDecision shape_type.
Proof. solve_decision. Defined.

(** A shape: its text when it has a [text] attribute, its type, and for
    a picture the relationship id of its image. *)
Record shape : Type := Shape {
  shape_text : option str;
  shape_kind : shape_type;
  blip_rId : str
}.

(** A slide: its shapes and the relationships of its part, from
    relationship id to the name of the related part. *)
Record slide : Type := Slide {
  shapes : list shape;
  rels : gmap str str
}.

(** A presentation: its slides and the image parts of its package. *)
Record presentation : Type := Presentation {
  slides : list slide;
  image_parts : gmap str image
}.

(** [len(prs.slides)] *)
Definition count_slides (prs : presentation) : nat := length (slides prs).

(** What [edit_images] changes as it runs: the image parts of the open
    presentation, the picture files in the save directory, and the
    requests sent to the image service, each a prompt and a size. *)
Record env : Type := Env {
  parts : gmap str image;
  disk : gmap str image;
  requests : list (str * str)
}.

(** [os.path.join(a, b)] for a relative [b]. *)
Definition path_join (a b : str) : str :=
  match last a with
  | None => b
  | Some c => if bool_decide (c = "/"%char) then a ++ b else a ++ "/" ++ b
  end.

(** [os.path.join(save_dir, f"slide{i}.png")] *)
Definition png_path (save_dir : str) (i : nat) : str :=
  path_join save_dir ("slide" ++ Str.of_nat i ++ ".png").

Definition outputsize (width : nat) : str :=
  if width <=? 256 then "256x256"
  else if width <=? 512 then "512x512"
  else "1024x1024".

(** The prompt of a slide: the text of every shape that has one, each
    followed by a space. *)
Definition slide_prompt (shapes : list shape) : str :=
  foldl (fun prompt sh =>
           match shape_text sh with
           | Some t => prompt ++ t ++ " "
           | None => prompt
           end) [] shapes.

Section Images.

(** [resample size img] is the pixel data [img.resize(size)] computes.
    [Image_create k prompt size] is the picture obtained by the [k]-th
    request to the image service: the request itself, the download of
    the result and its decoding. *)
Context (resample : nat * nat -> image -> str).
Context (Image_create : nat -> str -> str -> result image).

Definition resize (sz : nat * nat) (img : image) : image :=
  {| size := sz; data := resample sz img |}.

(** The body of the loop over the shapes of slide [i] (counted from 0). *)
Definition edit_shape (save_dir : str) (i : nat) (prompt : str)
    (rels : gmap str str) (sh : shape) (st : env) : env * result unit :=
  if decide (shape_kind sh = PICTURE) then
    match rels !! blip_rId sh with
    | None => (st, Raise KeyError)
    | Some partname =>
        match parts st !! partname with
        | None => (st, Raise KeyError)
        | Some old =>
            let sz := size old in
            let request := (Str.slice_to 1000 prompt, outputsize (sz.1)) in
            let st1 := Env (parts st) (disk st) (requests st ++ [request]) in
            match Image_create (length (requests st)) request.1 request.2 with
            | Raise e => (st1, Raise e)
            | Ok generated =>
                let img := resize sz generated in
                let file := png_path save_dir (i + 1) in
                let st2 := Env (parts st1) (<[file := img]> (disk st1))
                               (requests st1) in
                match disk st2 !! file with
                | None => (st2, Raise FileNotFoundError)
                | Some new_img =>
                    (Env (<[partname := new_img]> (parts st2)) (disk st2)
                         (requests st2), Ok ())
                end
            end
        end
    end
  else (st, Ok ()).

Fixpoint edit_shapes (save_dir : str) (i : nat) (prompt : str)
    (rels : gmap str str) (shs : list shape) (st : env) : env * result unit :=
  match shs with
  | [] => (st, Ok ())
  | sh :: shs' =>
      match edit_shape save_dir i prompt rels sh st with
      | (st', Ok _) => edit_shapes save_dir i prompt rels shs' st'
      | (st', Raise e) => (st', Raise e)
      end
  end.

Fixpoint edit_image_slides (save_dir : str) (i : nat) (sls : list slide)
    (st : env) : env * result unit :=
  match sls with
  | [] => (st, Ok ())
  | sl :: sls' =>
      let prompt := slide_prompt (shapes sl) in
      match edit_shapes save_dir i prompt (rels sl) (shapes sl) st with
      | (st', Ok _) => edit_image_slides save_dir (S i) sls' st'
      | (st', Raise e) => (st', Raise e)
      end
  end.

(** [edit_images], on the presentation read from [new_ppt]: the
    environment it leaves and, when no call failed, the presentation it
    saves as [final.pptx]. *)
Definition edit_images (prs : presentation) (save_dir : str)
    (files : gmap str image) : env * result presentation :=
  match edit_image_slides save_dir 0 (slides prs)
          (Env (image_parts prs) files []) with
  | (st, Ok _) => (st, Ok (Presentation (slides prs) (parts st)))
  | (st, Raise e) => (st, Raise e)
  end.

End Images.

(** ** Reference behaviour

    The definitions below do not come from the script.  They state, on
    strings and lists alone, what its substitutions amount to. *)

(** The characters that a pattern takes literally. *)
Definition metachars : str :=
  Re.backslash :: (".[{()*+?^$|" : str).

Definition plain (s : str) : Prop := Forall (fun c => c ∉ metachars) s.

#[global] Instance plain_dec s : Decision (plain s).
Proof. unfold plain. apply _. Defined.

(** [s.replace(old, new)] for a non-empty [old]: every occurrence of
    [old], found from left to right and not overlapping the one before,
    gives way to [new]. *)
Equations? replace_all (old new s : str) : str by wf (length s) lt :=
replace_all old new [] := [];
replace_all old new (c :: s') :=
  if bool_decide (old ≠ [] ∧ old `prefix_of` c :: s')
  then new ++ replace_all old new (drop (length old - 1) s')
  else c :: replace_all old new s'.
Proof. all: try rewrite length_drop; simpl; lia. Defined.

(** [s.replace(old, new, 1)] for a non-empty [old]: the first occurrence
    only. *)
Fixpoint replace_first (old new s : str) : str :=
  match s with
  | [] => []
  | c :: s' =>
      if bool_decide (old ≠ [] ∧ old `prefix_of` s)
      then new ++ drop (length old) s
      else c :: replace_first old new s'
  end.

(** The positions at which [old] occurs in [s], counted from [i]. *)
Fixpoint occurrences_from (i : nat) (old s : str) : list nat :=
  (if bool_decide (old `prefix_of` s) then [i] else []) ++
  match s with
  | [] => []
  | _ :: s' => occurrences_from (S i) old s'
  end.

Definition occurrences (old s : str) : list nat := occurrences_from 0 old s.

(** [xs[n : n+k]] *)
Definition block {A} (xs : list A) (n k : nat) : list A := take k (drop n xs).

(** The offset of slide [i]: the number of runs of the slides before. *)
Definition offset (attrs_per_slide : list nat) (i : nat) : nat :=
  sum_list (take i attrs_per_slide).

(** Substitutions done one after the other, each on the result of the
    one before. *)
Fixpoint sub_pairs (pairs : list (option str * str)) (content : str)
  : result str :=
  match pairs with
  | [] => Ok content
  | (pattern, repl) :: pairs' =>
      content' ← re_sub pattern repl content; sub_pairs pairs' content'
  end.

Definition replace_pairs (replace : str -> str -> str -> str)
    (pairs : list (str * str)) (content : str) : str :=
  foldl (fun c '(old, new) => replace old new c) content pairs.

(** The regular expression of a pattern read literally. *)
Definition lits (p : str) : Re.regex :=
  foldr (fun c acc => Re.Cat (Re.Lit c) acc) Re.Eps p.

(** The pairs of slide [k], when the slides start at offset [n]. *)
Definition slide_pairs (xml_text : list (option str)) (responses : list str)
    (n : nat) (attrs : list nat) (k : nat) : list (option str * str) :=
  let n_k := default 0 (attrs !! k) in
  zip (block xml_text (n + offset attrs k) n_k)
      (block responses (n + offset attrs k) n_k).

Definition literal_pair (pr : str * str) : Prop :=
  plain pr.1 ∧ pr.1 ≠ [] ∧ Re.backslash ∉ pr.2.

(** The pairs of slide [k] when every run is a string. *)
Definition literal_pairs (runs lines : list str) (attrs : list nat) (k : nat)
  : list (str * str) :=
  let n_k := default 0 (attrs !! k) in
  zip (block runs (offset attrs k) n_k) (block lines (offset attrs k) n_k).

Definition literal_run (p : str) : Prop := plain p ∧ p ≠ [].

Definition literal_line (r : str) : Prop := Re.backslash ∉ r.

Definition pattern_exn (e : exn) : Prop := e = re_error ∨ e = OutsideModel.

(** ** Example decks *)

Definition sld_open : str :=
  "<p:sld xmlns:a='http://schemas.openxmlformats.org/drawingml/2006/main' xmlns:p='http://schemas.openxmlformats.org/presentationml/2006/main'>".

Definition sld_close : str := "</p:sld>".

(** A paragraph with one run. *)
Definition para (t : str) : str := "<a:p><a:r><a:t>" ++ t ++ "</a:t></a:r></a:p>".

(** A slide that shows the same text twice. *)
Definition twice_xml : str := sld_open ++ para "Hi" ++ para "Hi" ++ sld_close.

Definition twice_fs : gmap str str := {[ slide_path "deck" 1 := twice_xml ]}.

Definition two_lines (a b : str) : str := a ++ Str.newline :: b.

(** The claim that each run has its first occurrence replaced, and
    nothing else. *)
Definition first_match_claim (save_dir : str) (runs : list str)
    (response : str) (attrs : list nat) (fs : gmap str str) : Prop :=
  forall k c, k < length attrs ->
    fs !! slide_path save_dir (k + 1) = Some c ->
    (edit_text save_dir (Some <$> runs) response attrs fs).1
      !! slide_path save_dir (k + 1)
    = Some (replace_pairs replace_first
              (literal_pairs runs (split_responses (Some <$> runs) response)
                 attrs k) c).

#[global] Instance literal_run_dec p : Decision (literal_run p).
Proof. unfold literal_run. apply _. Defined.

#[global] Instance literal_line_dec r : Decision (literal_line r).
Proof. unfold literal_line. apply _. Defined.

Ltac by_compute :=
  match goal with
  | |- ?P => refine (@bool_decide_unpack P _ _); vm_compute; exact I
  end.

(** A deck of two slides with the runs "Title", "Subtitle" and "Body". *)
Definition slide_of (texts : list str) : str :=
  sld_open ++ concat (para <$> texts) ++ sld_close.

Definition deck_runs : list str := ["Title" : str; "Subtitle" : str; "Body" : str].

Definition deck_fs : gmap str str :=
  {[ slide_path "deck" 1 := slide_of ["Title" : str; "Subtitle" : str];
     slide_path "deck" 2 := slide_of ["Body" : str] ]}.

Definition french : str := two_lines "Titre" (two_lines "Sous-titre" "Corps").

(** A slide with the runs "a.c" and "abc". *)
Definition dot_fs : gmap str str :=
  {[ slide_path "deck" 1 := slide_of ["a.c" : str; "abc" : str] ]}.

(** The text runs of a slide tree, as [text_parse] lists them. *)
Definition runs_of (tree : ET.element) : list (option str) :=
  ET.text <$> ET.findall_descendants drawingml "t" tree.

(** A slide with one run that has no text. *)
Definition empty_run_fs : gmap str str :=
  {[ slide_path "deck" 1 := slide_of ["Title" : str; [] : str] ]}.

(** The tree of a document that parses. *)
Definition tree_of (c : str) : ET.element :=
  match Xml.fromstring c with
  | Ok tree => tree
  | Raise _ => ET.Element [] [] None [] None
  end.

Definition deck_trees : list ET.element :=
  [tree_of (slide_of ["Title" : str; "Subtitle" : str]);
   tree_of (slide_of ["Body" : str])].

(** A text service that answers [response] whatever it is asked. *)
Definition mock_service (response : str) : str -> str -> nat -> result str :=
  fun _ _ _ => Ok response.

(** [weave [m0; m1; ...] [t0; t1; ...] last] is the file content
    [m0 t0 m1 t1 ... last]: the texts [ts] between the pieces of markup
    [ms], closed by [last]. *)
Fixpoint weave (ms ts : list str) (last : str) : str :=
  match ms, ts with
  | m :: ms', t :: ts' => m ++ t ++ weave ms' ts' last
  | _, _ => last
  end.

(** Each text, at the moment it is substituted, occurs in the content
    once: where it stands between its pieces of markup.  [pre] is the
    part of the content already rewritten. *)
Fixpoint once_each (pre : str) (ms ts news : list str) (last : str) : Prop :=
  match ms, ts, news with
  | m :: ms', t :: ts', n :: news' =>
      occurrences t (pre ++ m ++ t ++ weave ms' ts' last) = [length (pre ++ m)]
      ∧ once_each (pre ++ m ++ n) ms' ts' news' last
  | _, _, _ => True
  end.

Definition french_lines : list str :=
  ["Titre" : str; "Sous-titre" : str; "Corps" : str].

(** C6 as stated: whatever the markup around the three runs, the text
    stage leaves the markup as it was and puts the French strings in
    place of the runs.  The first slide has [a] of the runs. *)
Definition translation_claim (ET_fromstring : str -> result ET.element)
    {temperature : Type}
    (Edit_create : str -> str -> temperature -> result str)
    (a : nat) (ms1 ms2 : list str) (e1 e2 save_dir prompt : str)
    (temp : temperature) (fs : gmap str str) : Prop :=
  a <= 3 -> length ms1 = a -> length ms2 = 3 - a ->
  fs !! slide_path save_dir 1 = Some (weave ms1 (take a deck_runs) e1) ->
  fs !! slide_path save_dir 2 = Some (weave ms2 (drop a deck_runs) e2) ->
  text_parse ET_fromstring (weave ms1 (take a deck_runs) e1)
  = Ok (Some <$> take a deck_runs) ->
  text_parse ET_fromstring (weave ms2 (drop a deck_runs) e2)
  = Ok (Some <$> drop a deck_runs) ->
  Edit_create (Str.join deck_runs) (instruction prompt 3) temp = Ok french ->
  exists fs',
    text_stage ET_fromstring Edit_create save_dir 2 prompt temp fs
    = (fs', Ok ())
    ∧ fs' !! slide_path save_dir 1 = Some (weave ms1 (take a french_lines) e1)
    ∧ fs' !! slide_path save_dir 2 = Some (weave ms2 (drop a french_lines) e2)
    ∧ forall p, p ≠ slide_path save_dir 1 -> p ≠ slide_path save_dir 2 ->
        fs' !! p = fs !! p.

(** The markup of a shape around its text, as presentation files have
    it. *)
Definition sp_open : str := "<p:sp><p:txBody><a:bodyPr/><a:p><a:r><a:t>".
Definition sp_close : str := "</a:t></a:r></a:p></p:txBody></p:sp>".

Definition body_fs : gmap str str :=
  {[ slide_path "deck" 1 :=
       weave [sld_open ++ sp_open; sp_close ++ sp_open]
         ["Title" : str; "Subtitle" : str] (sp_close ++ sld_close);
     slide_path "deck" 2 :=
       weave [sld_open ++ sp_open] ["Body" : str] (sp_close ++ sld_close) ]}.

Definition para_open : str := "<a:p><a:r><a:t>".
Definition para_close : str := "</a:t></a:r></a:p>".

(** What [edit_images] maintains, with respect to the image parts
    [parts0] and the picture files [files] it starts from: every image
    part keeps its size, every request asks for the bucket of an
    original picture's width, and a picture file that was written has
    the size of an original picture. *)
Definition sizes_kept (parts0 parts : gmap str image) : Prop :=
  forall p, size <$> parts !! p = size <$> parts0 !! p.

Definition requests_ok (parts0 : gmap str image) (reqs : list (str * str))
  : Prop :=
  forall req, req ∈ reqs ->
    exists p old, parts0 !! p = Some old ∧ req.2 = outputsize (size old).1.

Definition disk_ok (parts0 files disk : gmap str image) : Prop :=
  forall f img, disk !! f = Some img ->
    files !! f = Some img
    ∨ exists p old, parts0 !! p = Some old ∧ size img = size old.

Definition images_inv (parts0 files : gmap str image) (st : env) : Prop :=
  sizes_kept parts0 (parts st)
  ∧ requests_ok parts0 (requests st)
  ∧ disk_ok parts0 files (disk st).

Definition buckets : list str :=
  ["256x256" : str; "512x512" : str; "1024x1024" : str].

(** A presentation of one slide: a title and a picture of 300 by 200
    pixels; and an image service whose pictures are 1024 by 1024. *)
Definition photo : image := Image (300, 200) "old".

Definition one_picture : presentation :=
  Presentation
    [Slide [Shape (Some ("Quarterly results" : str)) AUTO_SHAPE [];
            Shape None PICTURE "rId2"]
       {[ ("rId2" : str) := ("/ppt/media/image1.png" : str) ]}]
    {[ ("/ppt/media/image1.png" : str) := photo ]}.

Definition mock_images : nat -> str -> str -> result image :=
  fun _ _ _ => Ok (Image (1024, 1024) "new").

Definition nearest : nat * nat -> image -> str := fun _ img => data img.

(** A matcher is local when it hands to its continuation nothing but
    positions at or after the one it started from. *)
Definition local_matcher (body : str -> Re.cont -> option str) : Prop :=
  forall s k1 k2,
    (forall s', length s' <= length s -> k1 s' = k2 s') ->
    body s k1 = body s k2.

(** The loop needs no fuel at all where it can only go on with the rest
    of the pattern. *)
Definition at_rest (lo : nat) (hi : option nat) (count : nat)
    (last : option nat) (s : str) : Prop :=
  lo <= count ∧ Re.below count hi && negb (Re.same_pos last s) = false.

(** ** Further reference definitions *)

(** The inner loop of [edit_text] on slide [k], when the slides start
    at offset [n]. *)
Definition slide_subst (xml_text : list (option str)) (responses : list str)
    (n : nat) (attrs : list nat) (k : nat) (content : str) : result str :=
  subst_runs xml_text responses (n + offset attrs k)
    (default 0 (attrs !! k)) content.

(** A deck of which the second slide file is missing. *)
Definition torn_fs : gmap str str :=
  {[ slide_path "deck" 1 := slide_of ["Title" : str; "Subtitle" : str] ]}.

(** A text service that sends its input back. *)
Definition echo_service {temperature : Type}
  : str -> str -> temperature -> result str :=
  fun inputstr _ _ => Ok inputstr.

(** A run that can go to the service and come back as one line, and be
    read literally both as a pattern and as a replacement. *)
Definition one_line_run (run : str) : Prop :=
  literal_run run ∧ Str.newline ∉ run.

#[global] Instance one_line_run_dec run : Decision (one_line_run run).
Proof. unfold one_line_run. apply _. Defined.

Definition is_picture (sh : shape) : Prop := shape_kind sh = PICTURE.

#[global] Instance is_picture_dec sh : Decision (is_picture sh).
Proof. unfold is_picture. apply _. Defined.

(** The picture shapes of all the slides. *)
Definition picture_count (sls : list slide) : nat :=
  sum_list ((fun sl => length (filter is_picture (shapes sl))) <$> sls).

(** The relationship of a shape leads to an image part. *)
Definition resolves (parts0 : gmap str image) (rels : gmap str str)
    (sh : shape) : Prop :=
  exists partname,
    rels !! blip_rId sh = Some partname ∧ is_Some (parts0 !! partname).

Definition shapes_resolve (parts0 : gmap str image) (rels : gmap str str)
    (shs : list shape) : Prop :=
  Forall (fun sh => is_picture sh -> resolves parts0 rels sh) shs.

Definition all_resolve (parts0 : gmap str image) (sls : list slide) : Prop :=
  Forall (fun sl => shapes_resolve parts0 (rels sl) (shapes sl)) sls.

(** An image service that delivers a picture for every request. *)
Definition answers (Image_create : nat -> str -> str -> result image) : Prop :=
  forall k prompt sz, exists generated, Image_create k prompt sz = Ok generated.

(** What a shape adds to the prompt of its slide. *)
Definition prompt_part (sh : shape) : option str :=
  (fun t => t ++ " ") <$> shape_text sh.

(** A presentation of two slides that share one image part; the second
    slide has a picture whose relationship is missing. *)
Definition two_pictures : presentation :=
  Presentation
    [Slide [Shape (Some ("Quarterly results" : str)) AUTO_SHAPE [];
            Shape None PICTURE "rId2"]
       {[ ("rId2" : str) := ("/ppt/media/image1.png" : str) ]};
     Slide [Shape None PICTURE "rId3";
            Shape (Some ("Outlook" : str)) TEXT_BOX []]
       {[ ("rId3" : str) := ("/ppt/media/image1.png" : str) ]}]
    {[ ("/ppt/media/image1.png" : str) := photo;
       ("/ppt/media/image2.png" : str) := Image (64, 64) "logo" ]}.

Definition broken_picture : presentation :=
  Presentation
    [Slide [Shape None PICTURE "rId9"]
       {[ ("rId2" : str) := ("/ppt/media/image1.png" : str) ]}]
    {[ ("/ppt/media/image1.png" : str) := photo ]}.

Definition text_only : presentation :=
  Presentation
    [Slide [Shape (Some ("Quarterly results" : str)) AUTO_SHAPE []] ∅]
    {[ ("/ppt/media/image1.png" : str) := photo ]}.

(** The image parts that the picture shapes [shs] lead to through
    [rels] do not include [p]. *)
Definition unreferenced (p : str) (rels : gmap str str) (shs : list shape)
  : Prop :=
  Forall (fun sh => is_picture sh -> rels !! blip_rId sh ≠ Some p) shs.

(** Every request carries the truncated prompt of one of the slides. *)
Definition prompts_ok (sls : list slide) (reqs : list (str * str)) : Prop :=
  forall req, req ∈ reqs ->
    exists sl, sl ∈ sls ∧ req.1 = take 1000 (slide_prompt (shapes sl)).

(** * Properties *)

(** ** The repetition loop does not run out of fuel *)

Lemma until_fuel body lo hi :
  local_matcher body ->
  forall fuel1 fuel2 count last s k1 k2,
  (forall s', length s' <= length s -> k1 s' = k2 s') ->
  ((lo - count) + length s + 1 <= fuel1
   ∧ (lo - count) + length s + 1 <= fuel2)
  ∨ at_rest lo hi count last s ->
  Re.until body lo hi fuel1 count last s k1
  = Re.until body lo hi fuel2 count last s k2.
Proof.
  intros Hbody. induction fuel1 as [|fuel1 IH];
    intros fuel2 count last s k1 k2 Hk Hfuel.
  - destruct Hfuel as [[H1 _]|[Hlo Hrest]]; [lia|].
    destruct fuel2; simpl; rewrite (proj2 (Nat.ltb_ge _ _) Hlo), Hrest;
      apply Hk; lia.
  - destruct Hfuel as [[H1 H2]|[Hlo Hrest]].
    + destruct fuel2 as [|fuel2]; [lia|]. cbn [Re.until].
      destruct (count <? lo) eqn:Hc.
      * apply Nat.ltb_lt in Hc. apply Hbody. intros s' Hs'.
        apply IH; [intros; apply Hk; lia|]. left. lia.
      * apply Nat.ltb_ge in Hc.
        destruct (Re.below count hi && negb (Re.same_pos last s)) eqn:Hg;
          [|apply Hk; lia].
        rewrite (Hk s) by lia.
        erewrite (Hbody s); [reflexivity|].
        intros s' Hs'. apply IH; [intros; apply Hk; lia|].
        destruct (decide (length s' = length s)) as [Heq|Hne].
        -- right. split; [lia|]. unfold Re.same_pos.
           rewrite Heq, bool_decide_eq_true_2 by done.
           by rewrite andb_false_r.
        -- left. lia.
    + destruct fuel2; simpl; rewrite (proj2 (Nat.ltb_ge _ _) Hlo), Hrest;
        apply Hk; lia.
Qed.

Lemma m_local total r : local_matcher (Re.m total r).
Proof.
  induction r as [|c| | | |r1 IH1 r2 IH2|r1 IH1 r2 IH2|lo hi r IH|r IH];
    intros s k1 k2 Hk; simpl.
  - apply Hk; lia.
  - destruct s as [|c' s]; [done|]. case_bool_decide; [|done].
    apply Hk. simpl. lia.
  - destruct s as [|c' s]; [done|]. case_bool_decide; [done|].
    apply Hk. simpl. lia.
  - case_match; [|done]. apply Hk; lia.
  - destruct s as [|c [|c' s]]; [apply Hk; lia| |done].
    case_bool_decide; [|done]. apply Hk; lia.
  - apply IH1. intros s' Hs'. apply IH2. intros s'' Hs''. apply Hk. lia.
  - rewrite (IH1 s k1 k2 Hk), (IH2 s k1 k2 Hk). done.
  - apply until_fuel; [done|done|]. left. lia.
  - by apply IH.
Qed.

(** Any amount of fuel from [lo + length s + 1] on gives the repetition
    the same result: the amount [m] chooses never cuts a match short. *)
Lemma repetition_fuel_enough total lo hi r s k fuel :
  lo + length s + 1 <= fuel ->
  Re.m total (Re.Rep lo hi r) s k
  = Re.until (Re.m total r) lo hi fuel 0 None s k.
Proof.
  intros Hfuel. simpl. apply until_fuel; [apply m_local|done|]. left. lia.
Qed.


(** ** Patterns without metacharacters *)

Lemma not_metachar (c : ascii) :
  c ∉ metachars ->
  c ≠ Re.backslash ∧ c ≠ "."%char ∧ c ≠ "["%char ∧ c ≠ "{"%char
  ∧ c ≠ "("%char ∧ c ≠ ")"%char ∧ c ≠ "*"%char ∧ c ≠ "+"%char
  ∧ c ≠ "?"%char ∧ c ≠ "^"%char ∧ c ≠ "$"%char ∧ c ≠ "|"%char.
Proof.
  unfold metachars. simpl. intros H.
  repeat (apply not_elem_of_cons in H as [? H]). repeat split; assumption.
Qed.

Lemma parse_go_plain_char c top stack s :
  c ∉ metachars ->
  Re.parse_go top stack (c :: s)
  = Re.parse_go (Re.push_item (Re.Lit c) top) stack s.
Proof.
  intros H. apply not_metachar in H.
  destruct H as (?&?&?&?&?&?&?&?&?&?&?&?).
  simpl. rewrite !bool_decide_eq_false_2; [reflexivity | try done ..].
  intros [?|?]; done.
Qed.

Lemma seq_of_reverse (l : list Re.regex) :
  Re.seq_of (reverse l) = foldr (fun r acc => Re.Cat r acc) Re.Eps l.
Proof.
  unfold Re.seq_of. induction l as [|r l IH]; [done|].
  rewrite reverse_cons, foldl_app. simpl. by rewrite IH.
Qed.

Lemma parse_go_plain p top stack s :
  plain p ->
  Re.parse_go top stack (p ++ s)
  = Re.parse_go
      (Re.Frame (Re.branches top) (reverse (Re.Lit <$> p) ++ Re.items top))
      stack s.
Proof.
  intros Hp. revert top. induction Hp as [|c p Hc Hp IH]; intros top.
  - by destruct top.
  - simpl app. rewrite parse_go_plain_char by done. rewrite IH. simpl.
    by rewrite reverse_cons, <- app_assoc.
Qed.

Lemma parse_plain p : plain p -> Re.parse p = Ok (lits p).
Proof.
  intros Hp. unfold Re.parse.
  rewrite <- (app_nil_r p) at 1. rewrite parse_go_plain by done. simpl.
  unfold Re.close_frame. simpl. rewrite app_nil_r, seq_of_reverse.
  unfold lits. by rewrite foldr_fmap.
Qed.

Lemma m_lits_prefix total p s k : Re.m total (lits p) (p ++ s) k = k s.
Proof.
  induction p as [|c p IH]; [done|]. simpl.
  by rewrite bool_decide_eq_true_2.
Qed.

Lemma m_lits_no_prefix total p s k :
  ¬ p `prefix_of` s -> Re.m total (lits p) s k = None.
Proof.
  revert s. induction p as [|c p IH]; intros s Hn.
  - destruct Hn. apply prefix_nil.
  - simpl. destruct s as [|c' s]; [done|]. case_bool_decide; [|done].
    subst c'. apply IH. intros Hp. apply Hn. by apply prefix_cons.
Qed.

Lemma match_at_lits total p s adv :
  p ≠ [] ->
  Re.match_at total (lits p) s adv
  = if bool_decide (p `prefix_of` s) then Some (drop (length p) s) else None.
Proof.
  intros Hne. unfold Re.match_at. case_bool_decide as Hp.
  - destruct Hp as [t ->]. rewrite m_lits_prefix.
    rewrite drop_app_length.
    destruct p; [done|]. rewrite length_app. simpl.
    replace (length t =? _) with false; [by rewrite andb_false_r|].
    symmetry. apply Nat.eqb_neq. lia.
  - by apply m_lits_no_prefix.
Qed.

Lemma replace_all_cons old new c s :
  replace_all old new (c :: s)
  = if bool_decide (old ≠ [] ∧ old `prefix_of` c :: s)
    then new ++ replace_all old new (drop (length old - 1) s)
    else c :: replace_all old new s.
Proof. by simp replace_all. Qed.

Lemma sub_go_lits total p repl s skip :
  p ≠ [] ->
  Re.sub_go total (lits p) repl s skip = replace_all p repl (drop skip s).
Proof.
  intros Hne. revert skip. induction s as [|c s IH]; intros skip.
  - rewrite drop_nil. simp replace_all. destruct skip; [|done]. simpl.
    rewrite match_at_lits by done. rewrite bool_decide_eq_false_2; [done|].
    intros Hp. apply prefix_nil_inv in Hp. done.
  - destruct skip as [|n]; [|by simpl; rewrite IH].
    rewrite drop_0, replace_all_cons. cbn [Re.sub_go].
    rewrite match_at_lits by done.
    case_bool_decide as Hp.
    + rewrite bool_decide_eq_true_2 by done.
      rewrite length_drop.
      destruct p as [|c' p]; [done|]. destruct Hp as [t Ht].
      assert (length (c :: s) = length ((c' :: p) ++ t)) as Hl by by rewrite Ht.
      rewrite length_app in Hl. simpl in Hl.
      replace (length (c :: s) - (length (c :: s) - length (c' :: p)))
        with (S (length p)) by (simpl; lia).
      rewrite IH. simpl. by rewrite Nat.sub_0_r.
    + rewrite bool_decide_eq_false_2 by tauto. by rewrite IH, drop_0.
Qed.

Lemma Re_sub_plain p repl s :
  plain p -> p ≠ [] -> Re.backslash ∉ repl ->
  Re.sub p repl s = Ok (replace_all p repl s).
Proof.
  intros Hp Hne Hr. unfold Re.sub. rewrite parse_plain by done. simpl.
  unfold Re.has_backslash. rewrite bool_decide_eq_false_2 by done.
  by rewrite sub_go_lits, drop_0.
Qed.

(** ** Paths *)

Lemma of_nat_inj i j : Str.of_nat i = Str.of_nat j -> i = j.
Proof.
  unfold Str.of_nat. intros H.
  apply (f_equal string_of_list_ascii) in H.
  rewrite !string_of_list_ascii_of_string in H.
  by apply (inj pretty) in H.
Qed.

Lemma slide_path_inj save_dir i j :
  slide_path save_dir i = slide_path save_dir j -> i = j.
Proof.
  unfold slide_path. intros H.
  apply app_inv_head in H. apply app_inv_head in H.
  apply app_inv_tail in H. by apply of_nat_inj.
Qed.

(** ** The loops of [edit_text] *)

Lemma block_cons {A} (xs : list A) j k x :
  xs !! j = Some x -> block xs j (S k) = x :: block xs (S j) k.
Proof. intros H. unfold block. by rewrite (drop_S _ _ _ H). Qed.

Lemma block_0 {A} (xs : list A) j : block xs j 0 = [].
Proof. done. Qed.

Lemma offset_0 attrs : offset attrs 0 = 0.
Proof. done. Qed.

Lemma offset_cons a attrs k : offset (a :: attrs) (S k) = a + offset attrs k.
Proof. done. Qed.

(** The inner loop pairs run [j] with line [j]. *)
Lemma subst_runs_pairs xml_text responses n_slide :
  forall j content,
  j + n_slide <= length xml_text ->
  j + n_slide <= length responses ->
  subst_runs xml_text responses j n_slide content
  = sub_pairs (zip (block xml_text j n_slide) (block responses j n_slide))
      content.
Proof.
  induction n_slide as [|k IH]; intros j content Hx Hr; [done|].
  destruct (lookup_lt_is_Some_2 xml_text j) as [p Hp]; [lia|].
  destruct (lookup_lt_is_Some_2 responses j) as [r Hrj]; [lia|].
  rewrite (block_cons _ _ _ _ Hp), (block_cons _ _ _ _ Hrj).
  simpl. rewrite Hp, Hrj. simpl.
  destruct (re_sub p r content) as [content'|e]; [|done]. simpl.
  apply IH; lia.
Qed.

(** The inner loop reads the lines at the indices of the runs only. *)
Lemma subst_runs_ext xml_text rs1 rs2 n_slide :
  (forall j, j < length xml_text -> rs1 !! j = rs2 !! j) ->
  forall j content,
  subst_runs xml_text rs1 j n_slide content
  = subst_runs xml_text rs2 j n_slide content.
Proof.
  intros Hext. induction n_slide as [|k IH]; intros j content; [done|].
  simpl. destruct (xml_text !! j) as [p|] eqn:Hp; [|done]. simpl.
  rewrite (Hext j) by (by eapply lookup_lt_Some).
  destruct (rs2 !! j) as [r|]; [|done]. simpl.
  destruct (re_sub p r content); [|done]. simpl. apply IH.
Qed.

Lemma edit_slides_ext save_dir xml_text rs1 rs2 attrs :
  (forall j, j < length xml_text -> rs1 !! j = rs2 !! j) ->
  forall i n fs,
  edit_slides save_dir xml_text rs1 i n attrs fs
  = edit_slides save_dir xml_text rs2 i n attrs fs.
Proof.
  intros Hext. induction attrs as [|a attrs IH]; intros i n fs; [done|].
  simpl. destruct (fs !! _); [|done].
  rewrite (subst_runs_ext _ _ _ _ Hext).
  destruct (subst_runs _ _ _ _ _); [|done]. apply IH.
Qed.

Lemma edit_slides_ok save_dir xml_text responses attrs :
  forall i n (fs : gmap str str),
  n + sum_list attrs <= length xml_text ->
  n + sum_list attrs <= length responses ->
  (forall k, k < length attrs ->
     exists c c', fs !! slide_path save_dir (i + k + 1) = Some c
       ∧ sub_pairs (slide_pairs xml_text responses n attrs k) c = Ok c') ->
  exists fs',
    edit_slides save_dir xml_text responses i n attrs fs = (fs', Ok ())
    ∧ (forall k c, k < length attrs ->
         fs !! slide_path save_dir (i + k + 1) = Some c ->
         exists c', sub_pairs (slide_pairs xml_text responses n attrs k) c = Ok c'
           ∧ fs' !! slide_path save_dir (i + k + 1) = Some c')
    ∧ (forall p, (forall k, k < length attrs -> p ≠ slide_path save_dir (i + k + 1)) ->
         fs' !! p = fs !! p).
Proof.
  induction attrs as [|a attrs IH]; intros i n fs Hx Hr Hall.
  - exists fs. split; [done|]. split; [|done]. simpl. intros; lia.
  - simpl in Hx, Hr.
    destruct (Hall 0) as (c0 & c0' & Hc0 & Hs0); [simpl; lia|].
    rewrite Nat.add_0_r in Hc0.
    unfold slide_pairs in Hs0. simpl in Hs0.
    rewrite offset_0, Nat.add_0_r in Hs0.
    cbn [edit_slides]. rewrite Hc0.
    rewrite subst_runs_pairs by lia. rewrite Hs0.
    set (fs1 := <[slide_path save_dir (i + 1) := c0']> fs).
    assert (forall k, fs1 !! slide_path save_dir (S i + k + 1)
                      = fs !! slide_path save_dir (S i + k + 1)) as Hfs1.
    { intros k. unfold fs1. apply lookup_insert_ne.
      intros Heq. apply slide_path_inj in Heq. lia. }
    assert (forall k, slide_pairs xml_text responses (n + a) attrs k
                      = slide_pairs xml_text responses n (a :: attrs) (S k))
      as Hpairs.
    { intros k. unfold slide_pairs. simpl. rewrite offset_cons.
      by rewrite !Nat.add_assoc. }
    destruct (IH (S i) (n + a) fs1) as (fs' & Hrun & Hin & Hout).
    + lia.
    + lia.
    + intros k Hk. destruct (Hall (S k)) as (c & c' & Hc & Hs); [simpl; lia|].
      exists c, c'. rewrite Hfs1, Hpairs.
      replace (S i + k + 1) with (i + S k + 1) by lia. done.
    + exists fs'. split; [done|]. split.
      * intros k c Hk Hc. destruct k as [|k].
        -- rewrite Nat.add_0_r in *. rewrite Hc0 in Hc. injection Hc as <-.
           exists c0'. split.
           ++ unfold slide_pairs. simpl. by rewrite offset_0, Nat.add_0_r.
           ++ rewrite Hout; [by apply lookup_insert_eq|].
              intros k _ Heq. apply slide_path_inj in Heq. lia.
        -- replace (i + S k + 1) with (S i + k + 1) in * by lia.
           rewrite <- Hpairs. apply Hin; [simpl in Hk; lia|].
           by rewrite Hfs1.
      * intros p Hp. rewrite Hout.
        -- unfold fs1. apply lookup_insert_ne. intros <-.
           apply (Hp 0); [simpl; lia|]. by rewrite Nat.add_0_r.
        -- intros k Hk. replace (S i + k + 1) with (i + S k + 1) by lia.
           apply Hp. simpl. lia.
Qed.

(** ** Lines *)

Lemma split_go_length cur s : 0 < length (Str.split_go cur s).
Proof.
  revert cur. induction s as [|c s IH]; intros cur; simpl; [lia|].
  case_decide; simpl; [lia | apply IH].
Qed.

Lemma split_go_newlines cur s d :
  Str.split_go cur (s ++ replicate d Str.newline)
  = Str.split_go cur s ++ replicate d [].
Proof.
  revert cur. induction s as [|c s IH]; intros cur.
  - simpl. revert cur. induction d as [|d IHd]; intros cur; [done|].
    cbn [replicate app Str.split_go]. rewrite decide_True by done.
    by rewrite IHd.
  - simpl. case_decide; [|apply IH]. by rewrite IH.
Qed.

Lemma split_newlines s d :
  Str.split (s ++ replicate d Str.newline) = Str.split s ++ replicate d [].
Proof. apply split_go_newlines. Qed.

Lemma split_responses_short xml_text response :
  length (Str.split response) < length xml_text ->
  split_responses xml_text response
  = Str.split response
    ++ replicate (length xml_text - length (Str.split response)) [].
Proof.
  intros H. unfold split_responses.
  by rewrite (proj2 (Nat.ltb_lt _ _) H).
Qed.

Lemma split_responses_enough xml_text response :
  length xml_text <= length (Str.split response) ->
  split_responses xml_text response = Str.split response.
Proof.
  intros H. unfold split_responses.
  by rewrite (proj2 (Nat.ltb_ge _ _) H).
Qed.

Lemma split_responses_length xml_text response :
  length xml_text <= length (split_responses xml_text response).
Proof.
  destruct (decide (length (Str.split response) < length xml_text)) as [H|H].
  - rewrite split_responses_short by done.
    rewrite length_app, length_replicate. lia.
  - rewrite split_responses_enough by lia. lia.
Qed.

Lemma split_responses_lookup xml_text response j :
  j < length xml_text ->
  split_responses xml_text response !! j
  = Some (default [] (Str.split response !! j)).
Proof.
  intros Hj.
  destruct (decide (length (Str.split response) < length xml_text)) as [H|H].
  - rewrite split_responses_short by done.
    destruct (decide (j < length (Str.split response))) as [Hl|Hl].
    + rewrite lookup_app_l by done.
      destruct (lookup_lt_is_Some_2 _ _ Hl) as [x ->]. done.
    + rewrite lookup_app_r by lia. rewrite lookup_replicate_2 by lia.
      by rewrite lookup_ge_None_2 by lia.
  - rewrite split_responses_enough by lia.
    destruct (lookup_lt_is_Some_2 (Str.split response) j) as [x ->]; [lia|].
    done.
Qed.

(** ** Runs without metacharacters *)

Lemma sub_pairs_plain (pairs : list (str * str)) :
  Forall literal_pair pairs ->
  forall c,
  sub_pairs (prod_map Some id <$> pairs) c
  = Ok (replace_pairs replace_all pairs c).
Proof.
  induction 1 as [|[p r] pairs (Hp & Hne & Hr) _ IH]; intros c; [done|].
  simpl in *. rewrite Re_sub_plain by done. simpl. apply IH.
Qed.

Lemma block_fmap {A B} (f : A -> B) (xs : list A) n k :
  block (f <$> xs) n k = f <$> block xs n k.
Proof. unfold block. by rewrite fmap_take, fmap_drop. Qed.

Lemma zip_fmap_Some (l1 l2 : list str) :
  zip (Some <$> l1) l2 = prod_map Some id <$> zip l1 l2.
Proof.
  revert l2. induction l1 as [|x l1 IH]; intros [|y l2]; try done.
  simpl. by rewrite IH.
Qed.

Lemma Forall_block {A} (P : A -> Prop) (xs : list A) n k :
  Forall P xs -> Forall P (block xs n k).
Proof. intros H. unfold block. by apply Forall_take, Forall_drop. Qed.

Lemma block_take {A} (xs : list A) K n k :
  n + k <= K -> block (take K xs) n k = block xs n k.
Proof.
  intros H. unfold block. apply list_eq. intros i.
  destruct (decide (i < k)) as [Hi|Hi].
  - rewrite !lookup_take_lt, !lookup_drop by done.
    by rewrite lookup_take_lt by lia.
  - by rewrite !lookup_take_ge by lia.
Qed.

Lemma Forall_zip_pair {A B} (P : A -> Prop) (Q : B -> Prop) l1 l2 :
  Forall P l1 -> Forall Q l2 -> Forall (fun pr => P pr.1 ∧ Q pr.2) (zip l1 l2).
Proof.
  intros H1. revert l2. induction H1 as [|x l1 Hx _ IH]; intros l2 H2; [done|].
  destruct H2 as [|y l2 Hy H2]; [done|]. simpl. constructor; [done|].
  by apply IH.
Qed.

Lemma offset_bound attrs k :
  offset attrs k + default 0 (attrs !! k) <= sum_list attrs.
Proof.
  revert k. induction attrs as [|a attrs IH]; intros k.
  - by destruct k.
  - destruct k as [|k]; [simpl; lia|].
    rewrite offset_cons. simpl. specialize (IH k). lia.
Qed.

(** [edit_text] succeeds when every slide file is there and the
    substitutions of every slide succeed; each slide file then holds
    the outcome of its own substitutions and no other file changes. *)
Lemma edit_text_pairs (save_dir : str) (xml_text : list (option str))
    (response : str) (attrs : list nat) (fs : gmap str str) :
  sum_list attrs <= length xml_text ->
  (forall k, k < length attrs ->
     exists c c', fs !! slide_path save_dir (k + 1) = Some c
       ∧ sub_pairs (slide_pairs xml_text (split_responses xml_text response)
                      0 attrs k) c = Ok c') ->
  exists fs',
    edit_text save_dir xml_text response attrs fs = (fs', Ok ())
    ∧ (forall k c, k < length attrs ->
         fs !! slide_path save_dir (k + 1) = Some c ->
         exists c',
           sub_pairs (slide_pairs xml_text (split_responses xml_text response)
                        0 attrs k) c = Ok c'
           ∧ fs' !! slide_path save_dir (k + 1) = Some c')
    ∧ (forall p, (forall k, k < length attrs -> p ≠ slide_path save_dir (k + 1)) ->
         fs' !! p = fs !! p).
Proof.
  intros Hsum Hall. unfold edit_text.
  pose proof (split_responses_length xml_text response) as Hlen.
  destruct (edit_slides_ok save_dir xml_text
              (split_responses xml_text response) attrs 0 0 fs)
    as (fs' & Hrun & Hin & Hout); [simpl; lia | simpl; lia | done |].
  exists fs'. split; [done|]. split; [|done]. intros k c. apply Hin.
Qed.

Lemma slide_pairs_literal runs lines attrs k :
  slide_pairs (Some <$> runs) lines 0 attrs k
  = prod_map Some id <$> literal_pairs runs lines attrs k.
Proof.
  unfold slide_pairs, literal_pairs. cbn [Nat.add].
  by rewrite block_fmap, zip_fmap_Some.
Qed.

Lemma literal_pairs_Forall runs lines attrs k :
  sum_list attrs <= length runs ->
  Forall literal_run runs ->
  Forall literal_line (take (length runs) lines) ->
  Forall literal_pair (literal_pairs runs lines attrs k).
Proof.
  intros Hsum Hruns Hlines. unfold literal_pairs.
  pose proof (offset_bound attrs k) as Hb.
  rewrite <- (block_take lines (length runs)) by lia.
  eapply Forall_impl.
  - apply Forall_zip_pair; apply Forall_block; eassumption.
  - intros [p r] [[Hp Hne] Hr]. done.
Qed.

Lemma edit_text_literal (save_dir : str) (runs : list str) (response : str)
    (attrs : list nat) (fs : gmap str str) :
  sum_list attrs <= length runs ->
  Forall literal_run runs ->
  Forall literal_line
    (take (length runs) (split_responses (Some <$> runs) response)) ->
  (forall k, k < length attrs -> is_Some (fs !! slide_path save_dir (k + 1))) ->
  exists fs',
    edit_text save_dir (Some <$> runs) response attrs fs = (fs', Ok ())
    ∧ (forall k c, k < length attrs ->
         fs !! slide_path save_dir (k + 1) = Some c ->
         fs' !! slide_path save_dir (k + 1)
         = Some (replace_pairs replace_all
                   (literal_pairs runs
                      (split_responses (Some <$> runs) response) attrs k) c))
    ∧ (forall p, (forall k, k < length attrs -> p ≠ slide_path save_dir (k + 1)) ->
         fs' !! p = fs !! p).
Proof.
  intros Hsum Hruns Hlines Hfiles.
  set (lines := split_responses (Some <$> runs) response) in *.
  assert (forall k c,
    sub_pairs (slide_pairs (Some <$> runs) lines 0 attrs k) c
    = Ok (replace_pairs replace_all (literal_pairs runs lines attrs k) c))
    as Hsub.
  { intros k c. rewrite slide_pairs_literal. apply sub_pairs_plain.
    by apply literal_pairs_Forall. }
  destruct (edit_text_pairs save_dir (Some <$> runs) response attrs fs)
    as (fs' & Hrun & Hin & Hout).
  - by rewrite length_fmap.
  - intros k Hk. destruct (Hfiles k Hk) as [c Hc]. exists c. eexists.
    split; [done|]. apply Hsub.
  - exists fs'. split; [done|]. split; [|done].
    intros k c Hk Hc. destruct (Hin k c Hk Hc) as (c' & Hc' & Hfs').
    fold lines in Hc'. rewrite Hsub in Hc'. by injection Hc' as <-.
Qed.

(** ** Exceptions of the substitution *)

Lemma quantify_exn lo hi f rest e :
  Re.quantify lo hi f rest = Raise e -> pattern_exn e.
Proof.
  unfold Re.quantify, pattern_exn. intros H.
  repeat (case_match; simplify_eq; auto).
Qed.

Lemma parse_go_exn n :
  forall s top stack e,
  length s <= n -> Re.parse_go top stack s = Raise e -> pattern_exn e.
Proof.
  induction n as [|n IH]; intros s top stack e Hlen H.
  - destruct s; [|simpl in Hlen; lia]. simpl in H.
    destruct stack; simplify_eq. by left.
  - destruct s as [|c s]; simpl in H.
    { destruct stack; simplify_eq. by left. }
    simpl in Hlen.
    repeat (case_bool_decide; [
      first
        [ destruct (Re.quantify _ _ _ _) eqn:Hq; simpl in H;
          [ eapply IH; [|exact H]; lia
          | simplify_eq; by eapply quantify_exn ]
        | idtac ] |]);
    try (eapply IH; [|eassumption]; simpl in *; lia);
    repeat (case_match; simplify_eq; auto);
    try (eapply IH; [|eassumption]; simpl in *; lia);
    unfold pattern_exn; simplify_eq; auto.
Qed.

Lemma Re_sub_exn p repl s e : Re.sub p repl s = Raise e -> pattern_exn e.
Proof.
  unfold Re.sub. intros H.
  destruct (Re.parse p) as [r|e'] eqn:Hp; simpl in H.
  - case_match; simplify_eq. by right.
  - simplify_eq. eapply parse_go_exn; [|exact Hp]. done.
Qed.

Lemma re_sub_exn p repl s e :
  re_sub p repl s = Raise e -> e = TypeError ∨ pattern_exn e.
Proof.
  destruct p as [p|]; simpl; intros H.
  - right. by eapply Re_sub_exn.
  - left. by simplify_eq.
Qed.

Lemma subst_runs_no_IndexError xml_text responses n_slide :
  forall j content,
  j + n_slide <= length xml_text ->
  j + n_slide <= length responses ->
  subst_runs xml_text responses j n_slide content ≠ Raise IndexError.
Proof.
  induction n_slide as [|k IH]; intros j content Hx Hr; [done|].
  destruct (lookup_lt_is_Some_2 xml_text j) as [p Hp]; [lia|].
  destruct (lookup_lt_is_Some_2 responses j) as [r Hrj]; [lia|].
  simpl. rewrite Hp, Hrj. simpl.
  destruct (re_sub p r content) as [content'|e] eqn:Hs; simpl.
  - apply IH; lia.
  - intros ?; simplify_eq. apply re_sub_exn in Hs.
    destruct Hs as [|[|]]; done.
Qed.

Lemma edit_slides_no_IndexError save_dir xml_text responses attrs :
  forall i n (fs : gmap str str),
  n + sum_list attrs <= length xml_text ->
  n + sum_list attrs <= length responses ->
  (edit_slides save_dir xml_text responses i n attrs fs).2 ≠ Raise IndexError.
Proof.
  induction attrs as [|a attrs IH]; intros i n fs Hx Hr; [done|].
  simpl in Hx, Hr. cbn [edit_slides].
  destruct (fs !! _); [|done].
  destruct (subst_runs _ _ _ _ _) eqn:Hs.
  - apply IH; lia.
  - simpl. intros ?; simplify_eq.
    by eapply subst_runs_no_IndexError; [| |exact Hs]; lia.
Qed.

(** ** The substitution of [edit_text] *)

(** C1, as stated, fails: on a slide that shows "Hi" twice, the first
    substitution replaces both occurrences, so the second run never gets
    its own line. *)
Lemma first_match_claim_fails :
  ¬ first_match_claim "deck" ["Hi" : str; "Hi" : str] (two_lines "A" "B") [2]
      twice_fs.
Proof.
  intros H.
  assert (Hc := H 0 twice_xml ltac:(simpl; lia) ltac:(vm_compute; reflexivity)).
  vm_compute in Hc. discriminate Hc.
Qed.

(** C1, amended: when no run contains a metacharacter and no line a
    backslash, [edit_text] replaces, run after run, every occurrence of
    the run's text in the slide's file by the line of the same index;
    the occurrences are found from left to right and do not overlap. *)
Theorem edit_text_replaces_every_occurrence (save_dir : str)
    (runs : list str) (response : str) (attrs : list nat)
    (fs : gmap str str) :
  sum_list attrs <= length runs ->
  Forall literal_run runs ->
  Forall literal_line
    (take (length runs) (split_responses (Some <$> runs) response)) ->
  (forall k, k < length attrs -> is_Some (fs !! slide_path save_dir (k + 1))) ->
  exists fs',
    edit_text save_dir (Some <$> runs) response attrs fs = (fs', Ok ())
    ∧ (forall k c, k < length attrs ->
         fs !! slide_path save_dir (k + 1) = Some c ->
         fs' !! slide_path save_dir (k + 1)
         = Some (replace_pairs replace_all
                   (literal_pairs runs
                      (split_responses (Some <$> runs) response) attrs k) c))
    ∧ (forall p, (forall k, k < length attrs -> p ≠ slide_path save_dir (k + 1)) ->
         fs' !! p = fs !! p).
Proof. apply edit_text_literal. Qed.

Lemma edit_text_replaces_every_occurrence_witness :
  exists fs',
    edit_text "deck" (Some <$> ["Hi" : str; "Hi" : str]) (two_lines "A" "B") [2]
      twice_fs = (fs', Ok ())
    ∧ fs' !! slide_path "deck" 1
      = Some (sld_open ++ para "A" ++ para "A" ++ sld_close).
Proof.
  destruct (edit_text_replaces_every_occurrence "deck"
              ["Hi" : str; "Hi" : str] (two_lines "A" "B") [2] twice_fs)
    as (fs' & Hrun & Hin & _).
  - simpl. lia.
  - by_compute.
  - by_compute.
  - intros k Hk. assert (k = 0) as -> by (simpl in Hk; lia).
    vm_compute. eauto.
  - exists fs'. split; [exact Hrun|].
    specialize (Hin 0 twice_xml ltac:(simpl; lia)
                  ltac:(vm_compute; reflexivity)).
    cbn [Nat.add] in Hin. rewrite Hin. vm_compute. reflexivity.
Defined.

Lemma slide_pairs_lookup (xml_text : list (option str)) (lines : list str)
    (attrs : list nat) k n_k m :
  sum_list attrs <= length xml_text ->
  length xml_text <= length lines ->
  attrs !! k = Some n_k -> m < n_k ->
  exists run line,
    xml_text !! (offset attrs k + m) = Some run
    ∧ lines !! (offset attrs k + m) = Some line
    ∧ slide_pairs xml_text lines 0 attrs k !! m = Some (run, line).
Proof.
  intros Hsum Hlen Hk Hm.
  pose proof (offset_bound attrs k) as Hb. rewrite Hk in Hb. simpl in Hb.
  destruct (lookup_lt_is_Some_2 xml_text (offset attrs k + m)) as [run Hrun];
    [lia|].
  destruct (lookup_lt_is_Some_2 lines (offset attrs k + m)) as [line Hline];
    [lia|].
  exists run, line. split; [done|]. split; [done|].
  unfold slide_pairs, block. rewrite Hk. cbn [default Nat.add].
  apply lookup_zip_with_Some. exists run, line.
  by rewrite !lookup_take_lt, !lookup_drop by done.
Qed.

Lemma slide_pairs_length (xml_text : list (option str)) (lines : list str)
    (attrs : list nat) k n_k :
  sum_list attrs <= length xml_text ->
  length xml_text <= length lines ->
  attrs !! k = Some n_k ->
  length (slide_pairs xml_text lines 0 attrs k) = n_k.
Proof.
  intros Hsum Hlen Hk.
  pose proof (offset_bound attrs k) as Hb. rewrite Hk in Hb. simpl in Hb.
  unfold slide_pairs, block. rewrite Hk. cbn [default Nat.add].
  rewrite length_zip_with, !length_take, !length_drop. unfold id. lia.
Qed.

(** C5: slide [k] is rewritten with the substitutions of its own runs
    only.  Its pairs are the runs and the lines at the indices from the
    slide's offset on, run [j] with line [j]; they are applied in that
    order, each to the result of the one before; and no file other than
    the slide files is touched. *)
Theorem edit_text_pairs_runs_with_lines (save_dir : str)
    (xml_text : list (option str)) (response : str) (attrs : list nat)
    (fs : gmap str str) :
  sum_list attrs <= length xml_text ->
  (forall k, k < length attrs ->
     exists c c', fs !! slide_path save_dir (k + 1) = Some c
       ∧ sub_pairs (slide_pairs xml_text (split_responses xml_text response)
                      0 attrs k) c = Ok c') ->
  (forall k n_k m, attrs !! k = Some n_k -> m < n_k ->
     exists run line,
       xml_text !! (offset attrs k + m) = Some run
       ∧ split_responses xml_text response !! (offset attrs k + m) = Some line
       ∧ slide_pairs xml_text (split_responses xml_text response) 0 attrs k
           !! m = Some (run, line))
  ∧ (forall k n_k, attrs !! k = Some n_k ->
       length (slide_pairs xml_text (split_responses xml_text response)
                 0 attrs k) = n_k)
  ∧ exists fs',
      edit_text save_dir xml_text response attrs fs = (fs', Ok ())
      ∧ (forall k c, k < length attrs ->
           fs !! slide_path save_dir (k + 1) = Some c ->
           exists c',
             sub_pairs (slide_pairs xml_text
                          (split_responses xml_text response) 0 attrs k) c
             = Ok c'
             ∧ fs' !! slide_path save_dir (k + 1) = Some c')
      ∧ (forall p,
           (forall k, k < length attrs -> p ≠ slide_path save_dir (k + 1)) ->
           fs' !! p = fs !! p).
Proof.
  intros Hsum Hall.
  pose proof (split_responses_length xml_text response) as Hlen.
  split; [|split].
  - intros k n_k m Hk Hm. by eapply slide_pairs_lookup.
  - intros k n_k Hk. by eapply slide_pairs_length.
  - by apply edit_text_pairs.
Qed.

(** C4: with more lines than runs, the outcome depends on the first
    [K] lines only, [K] the number of runs: any response with the same
    first [K] lines leaves the same files and the same result. *)
Theorem excess_lines_have_no_effect (save_dir : str)
    (xml_text : list (option str)) (response response' : str)
    (attrs : list nat) (fs : gmap str str) :
  length xml_text < length (Str.split response) ->
  length xml_text <= length (Str.split response') ->
  take (length xml_text) (Str.split response')
  = take (length xml_text) (Str.split response) ->
  edit_text save_dir xml_text response attrs fs
  = edit_text save_dir xml_text response' attrs fs.
Proof.
  intros Hmore Hlen' Htake. unfold edit_text. apply edit_slides_ext.
  intros j Hj. rewrite !split_responses_enough by lia.
  rewrite <- (lookup_take_lt (Str.split response) (length xml_text)) by done.
  rewrite <- (lookup_take_lt (Str.split response') (length xml_text)) by done.
  by rewrite Htake.
Qed.

(** C3: with fewer lines than runs, the list of lines is completed with
    empty strings to the number of runs.  The outcome is that of the
    same response followed by as many newlines as lines are missing;
    looking up a line never fails; and when the runs and the lines are
    read literally every slide is rewritten, the runs without a line of
    their own being replaced by the empty string. *)
Theorem short_response_is_padded (save_dir : str)
    (xml_text : list (option str)) (response : str) (attrs : list nat)
    (fs : gmap str str) :
  length (Str.split response) < length xml_text ->
  length (split_responses xml_text response) = length xml_text
  ∧ (forall j, j < length xml_text ->
       split_responses xml_text response !! j
       = Some (default [] (Str.split response !! j)))
  ∧ edit_text save_dir xml_text response attrs fs
    = edit_text save_dir xml_text
        (response ++ replicate (length xml_text - length (Str.split response))
                       Str.newline) attrs fs
  ∧ (sum_list attrs <= length xml_text ->
       (edit_text save_dir xml_text response attrs fs).2 ≠ Raise IndexError)
  ∧ (forall runs,
       xml_text = Some <$> runs ->
       sum_list attrs <= length runs ->
       Forall literal_run runs ->
       Forall literal_line (Str.split response) ->
       (forall k, k < length attrs ->
          is_Some (fs !! slide_path save_dir (k + 1))) ->
       exists fs',
         edit_text save_dir xml_text response attrs fs = (fs', Ok ())
         ∧ forall k c, k < length attrs ->
             fs !! slide_path save_dir (k + 1) = Some c ->
             fs' !! slide_path save_dir (k + 1)
             = Some (replace_pairs replace_all
                       (literal_pairs runs
                          (Str.split response
                           ++ replicate
                                (length runs - length (Str.split response)) [])
                          attrs k) c)).
Proof.
  intros Hshort. split; [|split; [|split; [|split]]].
  - rewrite split_responses_short by done.
    rewrite length_app, length_replicate. lia.
  - intros j Hj. by apply split_responses_lookup.
  - unfold edit_text. apply edit_slides_ext. intros j Hj.
    rewrite split_responses_short by done.
    rewrite split_responses_enough.
    + by rewrite split_newlines.
    + rewrite split_newlines, length_app, length_replicate. lia.
  - intros Hsum. unfold edit_text.
    pose proof (split_responses_length xml_text response).
    apply edit_slides_no_IndexError; simpl; lia.
  - intros runs -> Hsum Hruns Hlines Hfiles.
    rewrite length_fmap in Hshort.
    destruct (edit_text_literal save_dir runs response attrs fs)
      as (fs' & Hrun & Hin & _); [done|done| |done|].
    + rewrite split_responses_short by by rewrite length_fmap.
      apply Forall_take, Forall_app. split; [done|].
      apply Forall_replicate. unfold literal_line. apply not_elem_of_nil.
    + exists fs'. split; [done|]. intros k c Hk Hc.
      rewrite (Hin k c Hk Hc).
      rewrite split_responses_short by by rewrite length_fmap.
      by rewrite length_fmap.
Qed.
Lemma edit_text_pairs_runs_with_lines_witness :
  exists fs',
    edit_text "deck" (Some <$> deck_runs) french [2; 1] deck_fs = (fs', Ok ())
    ∧ fs' !! slide_path "deck" 1
      = Some (slide_of ["Titre" : str; "Sous-titre" : str])
    ∧ fs' !! slide_path "deck" 2 = Some (slide_of ["Corps" : str]).
Proof.
  destruct (edit_text_pairs_runs_with_lines "deck" (Some <$> deck_runs)
              french [2; 1] deck_fs) as (_ & _ & fs' & Hrun & Hin & _).
  - simpl. lia.
  - intros k Hk.
    assert (k = 0 ∨ k = 1) as [-> | ->] by (simpl in Hk; lia);
      eexists; eexists; split; vm_compute; reflexivity.
  - exists fs'. split; [exact Hrun|]. split.
    + destruct (Hin 0 (slide_of ["Title" : str; "Subtitle" : str]))
        as (c' & Hc' & Hfs'); [simpl; lia | vm_compute; reflexivity |].
      cbn [Nat.add] in Hfs'. rewrite Hfs'. vm_compute in Hc'.
      injection Hc' as <-. vm_compute. reflexivity.
    + destruct (Hin 1 (slide_of ["Body" : str]))
        as (c' & Hc' & Hfs'); [simpl; lia | vm_compute; reflexivity |].
      cbn [Nat.add] in Hfs'. rewrite Hfs'. vm_compute in Hc'.
      injection Hc' as <-. vm_compute. reflexivity.
Defined.

Lemma excess_lines_have_no_effect_witness :
  edit_text "deck" (Some <$> deck_runs) (two_lines french "Merci") [2; 1]
    deck_fs
  = edit_text "deck" (Some <$> deck_runs) french [2; 1] deck_fs.
Proof.
  apply (excess_lines_have_no_effect "deck" (Some <$> deck_runs)
           (two_lines french "Merci") french [2; 1] deck_fs).
  - vm_compute. lia.
  - vm_compute. lia.
  - vm_compute. reflexivity.
Defined.

Lemma short_response_is_padded_witness :
  exists fs',
    edit_text "deck" (Some <$> deck_runs) "Titre" [2; 1] deck_fs = (fs', Ok ())
    ∧ fs' !! slide_path "deck" 1 = Some (slide_of ["Titre" : str; [] : str])
    ∧ fs' !! slide_path "deck" 2 = Some (slide_of [[] : str]).
Proof.
  destruct (short_response_is_padded "deck" (Some <$> deck_runs) "Titre"
              [2; 1] deck_fs) as (_ & _ & _ & _ & Hlit).
  - vm_compute. lia.
  - destruct (Hlit deck_runs) as (fs' & Hrun & Hin).
    + reflexivity.
    + simpl. lia.
    + by_compute.
    + by_compute.
    + intros k Hk.
      assert (k = 0 ∨ k = 1) as [-> | ->] by (simpl in Hk; lia);
        vm_compute; eauto.
    + exists fs'. split; [exact Hrun|]. split.
      * specialize (Hin 0 (slide_of ["Title" : str; "Subtitle" : str])
                      ltac:(simpl; lia) ltac:(vm_compute; reflexivity)).
        cbn [Nat.add] in Hin. rewrite Hin. vm_compute. reflexivity.
      * specialize (Hin 1 (slide_of ["Body" : str])
                      ltac:(simpl; lia) ltac:(vm_compute; reflexivity)).
        cbn [Nat.add] in Hin. rewrite Hin. vm_compute. reflexivity.
Defined.

Lemma edit_text_first_run (save_dir : str) (p : option str)
    (rest : list (option str)) (response : str) (n_slide : nat)
    (attrs : list nat) (fs : gmap str str) (content : str) :
  fs !! slide_path save_dir 1 = Some content ->
  exists repl,
    split_responses (p :: rest) response !! 0 = Some repl
    ∧ edit_text save_dir (p :: rest) response (S n_slide :: attrs) fs
      = match re_sub p repl content with
        | Ok content' =>
            match subst_runs (p :: rest) (split_responses (p :: rest) response)
                    1 n_slide content' with
            | Ok content'' =>
                edit_slides save_dir (p :: rest)
                  (split_responses (p :: rest) response) 1 (S n_slide) attrs
                  (<[slide_path save_dir 1 := content'']> fs)
            | Raise e => (fs, Raise e)
            end
        | Raise e => (fs, Raise e)
        end.
Proof.
  intros Hfile.
  pose proof (split_responses_lookup (p :: rest) response 0) as Hl.
  rewrite Hl by (simpl; lia). eexists. split; [done|].
  unfold edit_text. cbn [edit_slides Nat.add]. rewrite Hfile.
  cbn [subst_runs]. rewrite Hl by (simpl; lia). simpl.
  destruct (re_sub p _ content); [|done]. simpl.
  by destruct (subst_runs _ _ _ _ _).
Qed.

(** C9: the text of a run is compiled as a regular expression.  A run
    whose text does not compile, such as "(", makes [edit_text] raise
    the compilation error and leave the files as they were.  A run with
    a [.] also matches text that differs from it: on a slide with the
    runs "a.c" and "abc" the first substitution rewrites both, where a
    literal replacement rewrites the first only. *)
Theorem run_text_is_a_pattern :
  (forall (save_dir p : str) (rest : list (option str)) (response : str)
          (n_slide : nat) (attrs : list nat) (fs : gmap str str)
          (content : str),
     Re.parse p = Raise re_error ->
     fs !! slide_path save_dir 1 = Some content ->
     edit_text save_dir (Some p :: rest) response (S n_slide :: attrs) fs
     = (fs, Raise re_error))
  ∧ Re.parse "(" = Raise re_error
  ∧ edit_text "deck" [Some ("a.c" : str); Some ("abc" : str)]
      (two_lines "X" "Y") [2] dot_fs
    = ({[ slide_path "deck" 1 := slide_of ["X" : str; "X" : str] ]}, Ok ())
  ∧ replace_all "a.c" "X" (slide_of ["a.c" : str; "abc" : str])
    = slide_of ["X" : str; "abc" : str].
Proof.
  split; [|split; [|split]].
  - intros save_dir p rest response n_slide attrs fs content Hp Hfile.
    destruct (edit_text_first_run save_dir (Some p) rest response n_slide
                attrs fs content Hfile) as (repl & _ & ->).
    simpl. unfold Re.sub. by rewrite Hp.
  - reflexivity.
  - vm_compute. reflexivity.
  - vm_compute. reflexivity.
Qed.

Lemma run_text_is_a_pattern_witness :
  edit_text "deck" [Some ("(" : str)] "X" [1]
    {[ slide_path "deck" 1 := slide_of ["(" : str] ]}
  = ({[ slide_path "deck" 1 := slide_of ["(" : str] ]}, Raise re_error).
Proof.
  apply (proj1 run_text_is_a_pattern "deck" "(" [] "X" 0 []
           {[ slide_path "deck" 1 := slide_of ["(" : str] ]}
           (slide_of ["(" : str])).
  - vm_compute. reflexivity.
  - vm_compute. reflexivity.
Defined.

(** ** Extraction *)

Lemma join_items_Some (runs : list str) :
  Str.join_items (Some <$> runs) = Ok (Str.join runs).
Proof.
  unfold Str.join_items.
  assert (Str.strings (Some <$> runs) = Ok runs) as ->; [|done].
  induction runs as [|r runs IH]; [done|]. csimpl. by rewrite IH.
Qed.

Lemma join_items_None (items : list (option str)) :
  None ∈ items -> Str.join_items items = Raise TypeError.
Proof.
  unfold Str.join_items. intros H.
  assert (Str.strings items = Raise TypeError) as ->; [|done].
  induction items as [|[x|] items IH]; [by apply elem_of_nil in H| |done].
  apply elem_of_cons in H as [?|H]; [done|]. csimpl. by rewrite IH.
Qed.

Lemma block_concat {A} (ls : list (list A)) k l :
  ls !! k = Some l ->
  block (concat ls) (offset (length <$> ls) k) (length l) = l.
Proof.
  revert k. induction ls as [|l0 ls IH]; intros k Hk; [done|].
  destruct k as [|k].
  - simpl in Hk. injection Hk as ->. unfold block.
    rewrite offset_0, drop_0. cbn [concat]. apply take_app_length.
  - simpl in Hk. cbn [fmap list_fmap]. rewrite offset_cons.
    unfold block in *. cbn [concat].
    rewrite drop_app_add'; [|done]. by apply IH.
Qed.

Lemma sum_list_lengths {A} (ls : list (list A)) :
  sum_list (length <$> ls) = length (concat ls).
Proof.
  induction ls as [|l ls IH]; [done|]. csimpl. rewrite length_app. lia.
Qed.

Lemma findall_in_document_order uri name root :
  sublist (ET.findall_descendants uri name root) (ET.iter root).
Proof.
  unfold ET.findall_descendants, ET.descendants. destruct root as [t a x cs tl].
  simpl. apply sublist_cons. apply sublist_filter.
Qed.

Section ExtractionFacts.

Context (ET_fromstring : str -> result ET.element).
Context {temperature : Type}.
Context (Edit_create : str -> str -> temperature -> result str).

Lemma text_parse_Ok xml_string tree :
  ET_fromstring xml_string = Ok tree ->
  text_parse ET_fromstring xml_string = Ok (runs_of tree).
Proof. intros H. unfold text_parse. by rewrite H. Qed.

Lemma extract_trees (save_dir : str) (fs : gmap str str)
    (trees : list ET.element) :
  forall i xml_text attrs,
  (forall k tree, trees !! k = Some tree ->
     exists c, fs !! slide_path save_dir (i + k) = Some c
               ∧ ET_fromstring c = Ok tree) ->
  extract ET_fromstring save_dir fs i (length trees) xml_text attrs
  = Ok (xml_text ++ concat (runs_of <$> trees),
        attrs ++ (length <$> (runs_of <$> trees))).
Proof.
  induction trees as [|t trees IH]; intros i xml_text attrs Hall.
  - simpl. by rewrite !app_nil_r.
  - destruct (Hall 0 t eq_refl) as (c & Hc & Ht). rewrite Nat.add_0_r in Hc.
    cbn [length extract]. rewrite Hc. simpl.
    rewrite (text_parse_Ok _ _ Ht). simpl. rewrite IH.
    + by rewrite <- !app_assoc.
    + intros k tree Hk. destruct (Hall (S k) tree Hk) as (c' & Hc' & Ht').
      exists c'. by replace (S i + k) with (i + S k) by lia.
Qed.


(** C10: an [a:t] element without text is extracted as [None], not as
    an empty string, and [generate_text] then fails with a type error
    when it joins the runs, before it calls the service. *)
Theorem empty_run_breaks_generation :
  (forall xml_string tree k e,
     ET_fromstring xml_string = Ok tree ->
     ET.findall_descendants drawingml "t" tree !! k = Some e ->
     ET.text e = None ->
     exists elems,
       text_parse ET_fromstring xml_string = Ok elems
       ∧ elems !! k = Some None)
  ∧ text_parse Xml.fromstring (slide_of ["Title" : str; [] : str])
    = Ok [Some ("Title" : str); None]
  ∧ (forall (save_dir : str) (num_slides : nat) (prompt : str)
            (temp : temperature) (fs : gmap str str)
            (xml_text : list (option str)) (attrs_per_slide : list nat),
       extract ET_fromstring save_dir fs 1 num_slides [] []
       = Ok (xml_text, attrs_per_slide) ->
       None ∈ xml_text ->
       generate_text ET_fromstring Edit_create save_dir num_slides prompt
         temp fs
       = Raise TypeError).
Proof.
  split; [|split].
  - intros xml_string tree k e Ht Hk He. exists (runs_of tree).
    split; [by apply text_parse_Ok|].
    unfold runs_of. by rewrite list_lookup_fmap, Hk, <- He.
  - vm_compute. reflexivity.
  - intros save_dir num_slides prompt temp fs xml_text attrs_per_slide Hex
      Hin.
    unfold generate_text. rewrite Hex. simpl.
    by rewrite (join_items_None _ Hin).
Qed.

End ExtractionFacts.


Lemma empty_run_breaks_generation_witness :
  generate_text Xml.fromstring (mock_service french) "deck" 1
    "translate to French" 0 empty_run_fs
  = Raise TypeError.
Proof.
  apply (proj2 (proj2 (empty_run_breaks_generation Xml.fromstring
                         (mock_service french)))
           "deck" 1 "translate to French" 0 empty_run_fs
           [Some ("Title" : str); None] [2]).
  - vm_compute. reflexivity.
  - by_compute.
Defined.

(** ** Occurrences *)

Lemma occurrences_from_nil_shift b b' old s :
  occurrences_from b old s = [] -> occurrences_from b' old s = [].
Proof.
  revert b b'. induction s as [|c s IH]; intros b b' H; simpl in *;
    case_bool_decide; simpl in *; try done.
  by eapply IH.
Qed.

Lemma occurrences_from_nil_drop b b' old s k :
  occurrences_from b old s = [] -> occurrences_from b' old (drop k s) = [].
Proof.
  revert b s. induction k as [|k IH]; intros b s H.
  - rewrite drop_0. by eapply occurrences_from_nil_shift.
  - destruct s as [|c s]; [by eapply occurrences_from_nil_shift|].
    simpl in *. case_bool_decide; [done|]. by eapply IH.
Qed.

Lemma occurrences_from_ge b old s i :
  i ∈ occurrences_from b old s -> b <= i.
Proof.
  revert b. induction s as [|c s IH]; intros b; simpl.
  - case_bool_decide; simpl; [|by intros ?%elem_of_nil].
    intros ->%list_elem_of_singleton. lia.
  - case_bool_decide; simpl.
    + intros [->|Hin]%elem_of_cons; [lia|]. apply IH in Hin. lia.
    + intros Hin. apply IH in Hin. lia.
Qed.

Lemma replace_all_none old new b s :
  occurrences_from b old s = [] -> replace_all old new s = s.
Proof.
  revert b. induction s as [|c s IH]; intros b H; [by simp replace_all|].
  rewrite replace_all_cons. simpl in H.
  case_bool_decide as Hp; [done|]. simpl in H.
  rewrite bool_decide_eq_false_2 by tauto. f_equal. by eapply IH.
Qed.

Lemma replace_all_once old new b s i :
  old ≠ [] ->
  occurrences_from b old s = [b + i] ->
  replace_all old new s = take i s ++ new ++ drop (i + length old) s.
Proof.
  intros Hne. revert b i. induction s as [|c s IH]; intros b i H.
  - simpl in H. case_bool_decide as Hp; [|done].
    apply prefix_nil_inv in Hp. done.
  - rewrite replace_all_cons. simpl in H.
    case_bool_decide as Hp; simpl in H.
    + injection H as Hb Hrest. assert (i = 0) as -> by lia.
      rewrite bool_decide_eq_true_2 by done.
      rewrite (replace_all_none old new 0).
      * destruct old as [|o old]; [done|]. simpl. by rewrite Nat.sub_0_r.
      * by eapply occurrences_from_nil_drop.
    + rewrite bool_decide_eq_false_2 by tauto.
      destruct i as [|i].
      * assert (b + 0 ∈ occurrences_from (S b) old s) as Hin
          by (rewrite H; apply list_elem_of_singleton; done).
        apply occurrences_from_ge in Hin. lia.
      * rewrite (IH (S b) i); [done|].
        rewrite H. f_equal. lia.
Qed.

Lemma replace_pairs_weave ms :
  forall ts news pre last,
  length ts = length ms -> length news = length ms ->
  Forall (fun t => t ≠ []) ts ->
  once_each pre ms ts news last ->
  replace_pairs replace_all (zip ts news) (pre ++ weave ms ts last)
  = pre ++ weave ms news last.
Proof.
  induction ms as [|m ms IH]; intros ts news pre last Hts Hnews Hne Honce.
  - destruct ts; [|done]. destruct news; [|done]. done.
  - destruct ts as [|t ts]; [done|]. destruct news as [|n news]; [done|].
    simpl in Hts, Hnews. destruct Honce as [Hocc Honce].
    apply Forall_cons in Hne as [Ht Hne].
    cbn [zip zip_with replace_pairs foldl weave].
    unfold occurrences in Hocc.
    rewrite (replace_all_once t n 0 _ (length (pre ++ m))) by done.
    rewrite (app_assoc pre m), take_app_length.
    rewrite <- (length_app (pre ++ m) t), (app_assoc (pre ++ m) t).
    rewrite drop_app_length.
    specialize (IH ts news (pre ++ m ++ n) last).
    unfold replace_pairs in IH. rewrite <- !app_assoc in *.
    rewrite IH; [done|lia|lia|done|done].
Qed.

(** ** The text stage on the French deck *)

Lemma french_split :
  split_responses (Some <$> deck_runs) french = french_lines.
Proof. vm_compute. reflexivity. Qed.

Section FrenchDeck.

Context (ET_fromstring : str -> result ET.element).
Context {temperature : Type}.
Context (Edit_create : str -> str -> temperature -> result str).

Lemma generate_text_two_slides (save_dir prompt : str) (temp : temperature)
    (fs : gmap str str) (c1 c2 : str) (runs1 runs2 : list str)
    (response : str) :
  fs !! slide_path save_dir 1 = Some c1 ->
  fs !! slide_path save_dir 2 = Some c2 ->
  text_parse ET_fromstring c1 = Ok (Some <$> runs1) ->
  text_parse ET_fromstring c2 = Ok (Some <$> runs2) ->
  Edit_create (Str.join (runs1 ++ runs2))
    (instruction prompt (length (runs1 ++ runs2))) temp = Ok response ->
  generate_text ET_fromstring Edit_create save_dir 2 prompt temp fs
  = Ok (response, Some <$> (runs1 ++ runs2), [length runs1; length runs2]).
Proof.
  intros Hc1 Hc2 Hp1 Hp2 Hresp. unfold generate_text.
  cbn [extract]. rewrite Hc1. simpl. rewrite Hp1. simpl.
  rewrite Hc2. simpl. rewrite Hp2. simpl.
  rewrite <- fmap_app, join_items_Some. simpl.
  rewrite !length_fmap, Hresp. done.
Qed.


End FrenchDeck.



(** ** Pictures *)

Section ImagesFacts.

Context (resample : nat * nat -> image -> str).
Context (Image_create : nat -> str -> str -> result image).

Lemma edit_shape_picture (save_dir : str) (i : nat) (prompt : str)
    (rels : gmap str str) (sh : shape) (st : env) (partname : str)
    (old generated : image) :
  shape_kind sh = PICTURE ->
  rels !! blip_rId sh = Some partname ->
  parts st !! partname = Some old ->
  Image_create (length (requests st)) (Str.slice_to 1000 prompt)
    (outputsize (size old).1) = Ok generated ->
  edit_shape resample Image_create save_dir i prompt rels sh st
  = (Env (<[partname := resize resample (size old) generated]> (parts st))
         (<[png_path save_dir (i + 1) := resize resample (size old) generated]>
            (disk st))
         (requests st ++ [(Str.slice_to 1000 prompt,
                           outputsize (size old).1)]),
     Ok ()).
Proof.
  intros Hkind Hrel Hpart Hgen. unfold edit_shape.
  rewrite decide_True by done. rewrite Hrel, Hpart. cbn [fst snd].
  rewrite Hgen. cbn [disk parts requests]. by rewrite lookup_insert_eq.
Qed.

Lemma edit_shape_inv (parts0 files : gmap str image) (save_dir : str)
    (i : nat) (prompt : str) (rels : gmap str str) (sh : shape) (st : env) :
  images_inv parts0 files st ->
  images_inv parts0 files
    (edit_shape resample Image_create save_dir i prompt rels sh st).1.
Proof.
  intros (Hsz & Hreq & Hdisk). unfold edit_shape.
  case_decide as Hkind; [|done].
  destruct (rels !! blip_rId sh) as [partname|]; [|done].
  destruct (parts st !! partname) as [old|] eqn:Hold; [|done].
  assert (exists old0, parts0 !! partname = Some old0 ∧ size old = size old0)
    as (old0 & Hold0 & Hsize).
  { specialize (Hsz partname). rewrite Hold in Hsz.
    destruct (parts0 !! partname) as [old0|]; [|done].
    exists old0. split; [done|]. by injection Hsz. }
  assert (requests_ok parts0
            (requests st ++ [(Str.slice_to 1000 prompt,
                              outputsize (size old).1)])) as Hreq'.
  { intros req [Hin|Hin]%elem_of_app; [by apply Hreq|].
    apply list_elem_of_singleton in Hin as ->.
    exists partname, old0. split; [done|]. simpl. by rewrite Hsize. }
  cbn [fst snd].
  destruct (Image_create _ _ _) as [generated|e]; [|done].
  cbn [disk parts requests]. rewrite lookup_insert_eq. cbn [fst].
  split; [|split]; cbn [disk parts requests].
  - intros p. destruct (decide (p = partname)) as [->|Hne].
    + rewrite lookup_insert_eq. rewrite <- Hsz, Hold. done.
    + rewrite lookup_insert_ne by done. apply Hsz.
  - done.
  - intros f img. destruct (decide (f = png_path save_dir (i + 1))) as [->|Hne].
    + rewrite lookup_insert_eq. intros [= <-]. right.
      exists partname, old0. done.
    + rewrite lookup_insert_ne by done. apply Hdisk.
Qed.

Lemma edit_shapes_inv (parts0 files : gmap str image) (save_dir : str)
    (i : nat) (prompt : str) (rels : gmap str str) (shs : list shape) :
  forall st,
  images_inv parts0 files st ->
  images_inv parts0 files
    (edit_shapes resample Image_create save_dir i prompt rels shs st).1.
Proof.
  induction shs as [|sh shs IH]; intros st Hinv; [done|].
  cbn [edit_shapes].
  pose proof (edit_shape_inv parts0 files save_dir i prompt rels sh st Hinv)
    as Hstep.
  destruct (edit_shape _ _ _ _ _ _ _ _) as [st' [[]|e]]; [|done].
  by apply IH.
Qed.

Lemma edit_image_slides_inv (parts0 files : gmap str image) (save_dir : str)
    (sls : list slide) :
  forall i st,
  images_inv parts0 files st ->
  images_inv parts0 files
    (edit_image_slides resample Image_create save_dir i sls st).1.
Proof.
  induction sls as [|sl sls IH]; intros i st Hinv; [done|].
  cbn [edit_image_slides].
  pose proof (edit_shapes_inv parts0 files save_dir i
                (slide_prompt (shapes sl)) (rels sl) (shapes sl) st Hinv)
    as Hstep.
  destruct (edit_shapes _ _ _ _ _ _ _ _) as [st' [[]|e]]; [|done].
  by apply IH.
Qed.

Lemma edit_images_inv (prs : presentation) (save_dir : str)
    (files : gmap str image) :
  images_inv (image_parts prs) files
    (edit_images resample Image_create prs save_dir files).1.
Proof.
  unfold edit_images.
  pose proof (edit_image_slides_inv (image_parts prs) files save_dir
                (slides prs) 0 (Env (image_parts prs) files [])) as Hinv.
  destruct (edit_image_slides _ _ _ _ _ _) as [st [[]|e]]; apply Hinv;
    (split; [|split]); try done.
  - intros req Hin. by apply elem_of_nil in Hin.
  - intros f img Hf. by left.
  - intros req Hin. by apply elem_of_nil in Hin.
  - intros f img Hf. by left.
Qed.

Lemma edit_images_saved (prs prs' : presentation) (save_dir : str)
    (files : gmap str image) :
  (edit_images resample Image_create prs save_dir files).2 = Ok prs' ->
  slides prs' = slides prs
  ∧ image_parts prs'
    = parts (edit_images resample Image_create prs save_dir files).1.
Proof.
  unfold edit_images.
  destruct (edit_image_slides _ _ _ _ _ _) as [st [[]|e]]; [|done].
  simpl. by intros [= <-].
Qed.

(** C7: a picture shape whose image part is found and for which the
    service delivers a picture gets that picture resized to the size of
    the part's current picture, as the file written and as the new blob
    of the part.  Through the whole of [edit_images], whatever the
    service delivers, every image part keeps the size it had in the
    presentation that was opened, and every picture file written has
    the size of one of them. *)
Theorem pictures_keep_their_size :
  (forall (save_dir : str) (i : nat) (prompt : str) (rels : gmap str str)
          (sh : shape) (st : env) (partname : str) (old generated : image),
     shape_kind sh = PICTURE ->
     rels !! blip_rId sh = Some partname ->
     parts st !! partname = Some old ->
     Image_create (length (requests st)) (Str.slice_to 1000 prompt)
       (outputsize (size old).1) = Ok generated ->
     exists img,
       size img = size old
       ∧ edit_shape resample Image_create save_dir i prompt rels sh st
         = (Env (<[partname := img]> (parts st))
                (<[png_path save_dir (i + 1) := img]> (disk st))
                (requests st ++ [(Str.slice_to 1000 prompt,
                                  outputsize (size old).1)]),
            Ok ()))
  ∧ (forall (prs : presentation) (save_dir : str) (files : gmap str image),
       let out := edit_images resample Image_create prs save_dir files in
       (forall p, size <$> parts out.1 !! p = size <$> image_parts prs !! p)
       ∧ (forall f img, disk out.1 !! f = Some img ->
            files !! f = Some img
            ∨ exists p old, image_parts prs !! p = Some old
                            ∧ size img = size old)
       ∧ (forall prs', out.2 = Ok prs' ->
            slides prs' = slides prs
            ∧ forall p, size <$> image_parts prs' !! p
                        = size <$> image_parts prs !! p)).
Proof.
  split.
  - intros save_dir i prompt rels sh st partname old generated
      Hkind Hrel Hpart Hgen.
    exists (resize resample (size old) generated). split; [done|].
    by apply edit_shape_picture.
  - intros prs save_dir files out.
    destruct (edit_images_inv prs save_dir files) as (Hsz & _ & Hdisk).
    split; [exact Hsz|]. split; [exact Hdisk|].
    intros prs' Hok. apply edit_images_saved in Hok as [Hsl Hparts].
    split; [done|]. intros p. rewrite Hparts. apply Hsz.
Qed.


End ImagesFacts.

Lemma pictures_keep_their_size_witness :
  exists img,
    size img = (300, 200)
    ∧ edit_shape nearest mock_images "deck" 0 "Quarterly results "
        {[ ("rId2" : str) := ("/ppt/media/image1.png" : str) ]}
        (Shape None PICTURE "rId2") (Env (image_parts one_picture) ∅ [])
      = (Env (<[("/ppt/media/image1.png" : str) := img]>
                (image_parts one_picture))
             (<[png_path "deck" (0 + 1) := img]> ∅)
             ([] ++ [(Str.slice_to 1000 "Quarterly results ",
                      outputsize (300, 200).1)]),
         Ok ()).
Proof.
  apply (proj1 (pictures_keep_their_size nearest mock_images)
           "deck" 0 "Quarterly results "
           {[ ("rId2" : str) := ("/ppt/media/image1.png" : str) ]}
           (Shape None PICTURE "rId2")
           (Env (image_parts one_picture) ∅ [])
           "/ppt/media/image1.png" photo (Image (1024, 1024) "new")).
  - reflexivity.
  - vm_compute. reflexivity.
  - vm_compute. reflexivity.
  - reflexivity.
Defined.


(** * Further properties *)

(** ** What [edit_text] leaves alone *)

Lemma edit_slides_frame (save_dir : str) (xml_text : list (option str))
    (responses : list str) (attrs : list nat) :
  forall i n (fs : gmap str str),
  dom (edit_slides save_dir xml_text responses i n attrs fs).1 = dom fs
  ∧ forall p,
      (forall k, k < length attrs -> p ≠ slide_path save_dir (i + k + 1)) ->
      (edit_slides save_dir xml_text responses i n attrs fs).1 !! p = fs !! p.
Proof.
  induction attrs as [|a attrs IH]; intros i n fs; [done|].
  cbn [edit_slides].
  destruct (fs !! slide_path save_dir (i + 1)) as [c|] eqn:Hc; [|done].
  destruct (subst_runs _ _ _ _ _) as [c'|e]; [|done].
  destruct (IH (S i) (n + a)
              (<[slide_path save_dir (i + 1) := c']> fs)) as [Hdom Hout].
  split.
  - rewrite Hdom. apply dom_insert_lookup_L. by rewrite Hc.
  - intros p Hp. rewrite Hout.
    + apply lookup_insert_ne. intros <-. apply (Hp 0); [simpl; lia|].
      by rewrite Nat.add_0_r.
    + intros k Hk. replace (S i + k + 1) with (i + S k + 1) by lia.
      apply Hp. simpl. lia.
Qed.

(** X1: whatever it returns, [edit_text] neither creates nor deletes a
    file, and it leaves every file that is not the file of one of the
    slides as it was. *)
Theorem edit_text_touches_slide_files_only (save_dir : str)
    (xml_text : list (option str)) (response : str) (attrs : list nat)
    (fs : gmap str str) :
  dom (edit_text save_dir xml_text response attrs fs).1 = dom fs
  ∧ forall p,
      (forall k, k < length attrs -> p ≠ slide_path save_dir (k + 1)) ->
      (edit_text save_dir xml_text response attrs fs).1 !! p = fs !! p.
Proof.
  unfold edit_text.
  destruct (edit_slides_frame save_dir xml_text
              (split_responses xml_text response) attrs 0 0 fs) as [Hd Ho].
  split; [done|]. intros p Hp. by apply Ho.
Qed.

(** ** Where [edit_text] stops *)

Lemma slide_subst_cons xml_text responses n a attrs k c :
  slide_subst xml_text responses n (a :: attrs) (S k) c
  = slide_subst xml_text responses (n + a) attrs k c.
Proof.
  unfold slide_subst. simpl. rewrite offset_cons. by rewrite Nat.add_assoc.
Qed.

Lemma slide_subst_0 xml_text responses n a attrs c :
  slide_subst xml_text responses n (a :: attrs) 0 c
  = subst_runs xml_text responses n a c.
Proof. unfold slide_subst. simpl. by rewrite offset_0, Nat.add_0_r. Qed.

Lemma edit_slides_stops (save_dir : str) (xml_text : list (option str))
    (responses : list str) (e : exn) (attrs : list nat) :
  forall k i n (fs : gmap str str),
  k < length attrs ->
  (forall j, j < k ->
     exists c c', fs !! slide_path save_dir (i + j + 1) = Some c
       ∧ slide_subst xml_text responses n attrs j c = Ok c') ->
  (fs !! slide_path save_dir (i + k + 1) = None ∧ e = FileNotFoundError)
  ∨ (exists c, fs !! slide_path save_dir (i + k + 1) = Some c
       ∧ slide_subst xml_text responses n attrs k c = Raise e) ->
  exists fs',
    edit_slides save_dir xml_text responses i n attrs fs = (fs', Raise e)
    ∧ (forall j c, j < k ->
         fs !! slide_path save_dir (i + j + 1) = Some c ->
         exists c', slide_subst xml_text responses n attrs j c = Ok c'
           ∧ fs' !! slide_path save_dir (i + j + 1) = Some c')
    ∧ (forall p, (forall j, j < k -> p ≠ slide_path save_dir (i + j + 1)) ->
         fs' !! p = fs !! p).
Proof.
  induction attrs as [|a attrs IH]; intros k i n fs Hk Hbefore Hfail;
    [simpl in Hk; lia|].
  destruct k as [|k].
  - exists fs. rewrite Nat.add_0_r in Hfail. cbn [edit_slides].
    destruct Hfail as [[Hnone ->]|(c & Hc & Hs)].
    + rewrite Hnone. split; [done|]. split; [intros; lia|done].
    + rewrite Hc. rewrite slide_subst_0 in Hs. rewrite Hs.
      split; [done|]. split; [intros; lia|done].
  - destruct (Hbefore 0) as (c0 & c0' & Hc0 & Hs0); [lia|].
    rewrite Nat.add_0_r in Hc0. rewrite slide_subst_0 in Hs0.
    cbn [edit_slides]. rewrite Hc0, Hs0.
    set (fs1 := <[slide_path save_dir (i + 1) := c0']> fs).
    assert (forall j, fs1 !! slide_path save_dir (S i + j + 1)
                      = fs !! slide_path save_dir (S i + j + 1)) as Hfs1.
    { intros j. unfold fs1. apply lookup_insert_ne.
      intros Heq. apply slide_path_inj in Heq. lia. }
    destruct (IH k (S i) (n + a) fs1) as (fs' & Hrun & Hin & Hout).
    + simpl in Hk. lia.
    + intros j Hj. destruct (Hbefore (S j)) as (c & c' & Hc & Hs); [lia|].
      exists c, c'. rewrite Hfs1, <- slide_subst_cons.
      by replace (S i + j + 1) with (i + S j + 1) by lia.
    + rewrite Hfs1. replace (S i + k + 1) with (i + S k + 1) by lia.
      destruct Hfail as [?|(c & Hc & Hs)]; [by left|].
      right. exists c. by rewrite <- slide_subst_cons.
    + exists fs'. split; [done|]. split.
      * intros j c Hj Hc. destruct j as [|j].
        -- rewrite Nat.add_0_r in *. rewrite Hc0 in Hc. injection Hc as <-.
           exists c0'. split; [by rewrite slide_subst_0|].
           rewrite Hout; [by apply lookup_insert_eq|].
           intros j _ Heq. apply slide_path_inj in Heq. lia.
        -- replace (i + S j + 1) with (S i + j + 1) in * by lia.
           rewrite slide_subst_cons. apply Hin; [lia|]. by rewrite Hfs1.
      * intros p Hp. rewrite Hout.
        -- unfold fs1. apply lookup_insert_ne. intros <-.
           apply (Hp 0); [lia|]. by rewrite Nat.add_0_r.
        -- intros j Hj. replace (S i + j + 1) with (i + S j + 1) by lia.
           apply Hp. lia.
Qed.

(** X2: [edit_text] stops at the first slide whose file is missing or
    whose substitutions raise, and raises that exception.  The files of
    the slides before it are rewritten by then; the file of the failing
    slide and every file after it stay as they were. *)
Theorem edit_text_stops_at_first_failure (save_dir : str)
    (xml_text : list (option str)) (response : str) (attrs : list nat)
    (fs : gmap str str) (k : nat) (e : exn) :
  k < length attrs ->
  (forall j, j < k ->
     exists c c', fs !! slide_path save_dir (j + 1) = Some c
       ∧ slide_subst xml_text (split_responses xml_text response) 0 attrs j c
         = Ok c') ->
  (fs !! slide_path save_dir (k + 1) = None ∧ e = FileNotFoundError)
  ∨ (exists c, fs !! slide_path save_dir (k + 1) = Some c
       ∧ slide_subst xml_text (split_responses xml_text response) 0 attrs k c
         = Raise e) ->
  exists fs',
    edit_text save_dir xml_text response attrs fs = (fs', Raise e)
    ∧ (forall j c, j < k ->
         fs !! slide_path save_dir (j + 1) = Some c ->
         exists c',
           slide_subst xml_text (split_responses xml_text response) 0 attrs j c
           = Ok c'
           ∧ fs' !! slide_path save_dir (j + 1) = Some c')
    ∧ (forall p, (forall j, j < k -> p ≠ slide_path save_dir (j + 1)) ->
         fs' !! p = fs !! p).
Proof.
  intros Hk Hbefore Hfail. unfold edit_text.
  destruct (edit_slides_stops save_dir xml_text
              (split_responses xml_text response) e attrs k 0 0 fs)
    as (fs' & Hrun & Hin & Hout); [done|done|done|].
  exists fs'. split; [done|]. split; [|done]. intros j c. apply Hin.
Qed.

Lemma edit_text_stops_at_first_failure_witness :
  exists fs',
    edit_text "deck" (Some <$> deck_runs) french [2; 1] torn_fs
    = (fs', Raise FileNotFoundError)
    ∧ fs' !! slide_path "deck" 1
      = Some (slide_of ["Titre" : str; "Sous-titre" : str])
    ∧ fs' !! slide_path "deck" 2 = None.
Proof.
  destruct (edit_text_stops_at_first_failure "deck" (Some <$> deck_runs)
              french [2; 1] torn_fs 1 FileNotFoundError)
    as (fs' & Hrun & Hin & Hout).
  - simpl. lia.
  - intros j Hj. assert (j = 0) as -> by lia.
    eexists; eexists; split; vm_compute; reflexivity.
  - left. split; vm_compute; reflexivity.
  - exists fs'. split; [exact Hrun|]. split.
    + destruct (Hin 0 (slide_of ["Title" : str; "Subtitle" : str]))
        as (c' & Hc' & Hfs'); [lia | vm_compute; reflexivity |].
      cbn [Nat.add] in Hfs'. rewrite Hfs'. vm_compute in Hc'.
      injection Hc' as <-. vm_compute. reflexivity.
    + rewrite Hout; [vm_compute; reflexivity|].
      intros j Hj. assert (j = 0) as -> by lia.
      intros Heq. apply slide_path_inj in Heq. lia.
Defined.

(** ** Counts that exceed the runs *)

Lemma subst_runs_Ok_bound xml_text responses n_slide :
  forall j content content',
  subst_runs xml_text responses j (S n_slide) content = Ok content' ->
  j + S n_slide <= length xml_text.
Proof.
  induction n_slide as [|k IH]; intros j c c' H; cbn [subst_runs] in H.
  - destruct (xml_text !! j) eqn:Hj; [|done].
    apply lookup_lt_Some in Hj. lia.
  - destruct (xml_text !! j) eqn:Hj; [|done]. simpl in H.
    destruct (responses !! j); [|done]. simpl in H.
    destruct (re_sub _ _ _) as [c1|]; [|done]. simpl in H.
    apply IH in H. lia.
Qed.

Lemma edit_slides_Ok_bound (save_dir : str) (xml_text : list (option str))
    (responses : list str) (attrs : list nat) :
  forall i n (fs : gmap str str),
  n <= length xml_text ->
  (edit_slides save_dir xml_text responses i n attrs fs).2 = Ok () ->
  n + sum_list attrs <= length xml_text.
Proof.
  induction attrs as [|a attrs IH]; intros i n fs Hn H; [simpl; lia|].
  cbn [edit_slides] in H. destruct (fs !! _); [|done].
  destruct (subst_runs _ _ _ _ _) as [c'|] eqn:Hs; [|done].
  assert (n + a <= length xml_text) as Hna.
  { destruct a as [|a]; [lia|]. by eapply subst_runs_Ok_bound. }
  apply IH in H; [|done]. simpl. lia.
Qed.

(** X4: when the counts of [attrs_per_slide] add up to more than there
    are runs, [edit_text] does not return normally: it raises. *)
Theorem edit_text_raises_on_excess_counts (save_dir : str)
    (xml_text : list (option str)) (response : str) (attrs : list nat)
    (fs : gmap str str) :
  length xml_text < sum_list attrs ->
  exists e, (edit_text save_dir xml_text response attrs fs).2 = Raise e.
Proof.
  intros Hlt.
  destruct (edit_text save_dir xml_text response attrs fs).2 as [[]|e] eqn:H;
    [|by exists e].
  unfold edit_text in H. apply edit_slides_Ok_bound in H; simpl in *; lia.
Qed.

Lemma edit_text_raises_on_excess_counts_witness :
  (edit_text "deck" (Some <$> deck_runs) french [2; 2] deck_fs).2
  = Raise IndexError.
Proof.
  destruct (edit_text_raises_on_excess_counts "deck" (Some <$> deck_runs)
              french [2; 2] deck_fs) as [e He].
  - vm_compute. lia.
  - rewrite He. vm_compute in He. by injection He as <-.
Defined.

(** ** Runs that do not occur *)

Lemma slide_path_cases (save_dir p : str) (N : nat) :
  (exists k, k < N ∧ p = slide_path save_dir (k + 1))
  ∨ (forall k, k < N -> p ≠ slide_path save_dir (k + 1)).
Proof.
  induction N as [|N [(k & Hk & ->)|IH]].
  - right. intros; lia.
  - left. exists k. split; [lia|done].
  - destruct (decide (p = slide_path save_dir (N + 1))) as [->|Hne].
    + left. exists N. split; [lia|done].
    + right. intros k Hk. destruct (decide (k = N)) as [->|]; [done|].
      apply IH. lia.
Qed.

Lemma replace_pairs_none (pairs : list (str * str)) (c : str) :
  Forall (fun pr => occurrences pr.1 c = []) pairs ->
  replace_pairs replace_all pairs c = c.
Proof.
  unfold replace_pairs. induction 1 as [|[old new] pairs Hocc _ IH]; [done|].
  simpl in *. unfold occurrences in Hocc.
  by rewrite (replace_all_none old new 0 c Hocc).
Qed.

Lemma Forall_zip_fst {A B} (P : A -> Prop) (l1 : list A) (l2 : list B) :
  Forall P l1 -> Forall (fun pr => P pr.1) (zip l1 l2).
Proof.
  intros H. revert l2. induction H as [|x l1 Hx _ IH]; intros [|y l2];
    try done. simpl. constructor; [done|]. apply IH.
Qed.



(** ** Lines and runs *)

Lemma split_go_no_newline x cur s :
  Str.newline ∉ x ->
  Str.split_go cur (x ++ s) = Str.split_go (reverse x ++ cur) s.
Proof.
  revert cur. induction x as [|c x IH]; intros cur Hx; [done|].
  apply not_elem_of_cons in Hx as [Hc Hx]. simpl.
  rewrite decide_False by done. rewrite IH by done.
  by rewrite reverse_cons, <- app_assoc.
Qed.

Lemma split_join_cons x l :
  Str.newline ∉ x ->
  Str.split (Str.join (x :: l)) = x :: match l with
                                       | [] => []
                                       | _ :: _ => Str.split (Str.join l)
                                       end.
Proof.
  intros Hx. unfold Str.split. destruct l as [|y l].
  - simpl. rewrite <- (app_nil_r x) at 1. rewrite split_go_no_newline by done.
    simpl. by rewrite app_nil_r, reverse_involutive.
  - cbn [Str.join]. rewrite split_go_no_newline by done.
    cbn [Str.split_go]. rewrite decide_True by done.
    by rewrite app_nil_r, reverse_involutive.
Qed.

Lemma split_join_no_newline (runs : list str) :
  runs ≠ [] ->
  Forall (fun run => Str.newline ∉ run) runs ->
  Str.split (Str.join runs) = runs.
Proof.
  intros Hne Hruns. induction Hruns as [|x l Hx Hl IH]; [done|].
  rewrite split_join_cons by done. destruct l as [|y l]; [done|].
  f_equal. by apply IH.
Qed.

(** X8: joining runs with newlines and splitting the result at the
    newlines gives the runs back, as long as there is at least one run
    and no run contains a newline: the text sent to the service has
    one line per run. *)
Theorem split_join_round_trip (runs : list str) :
  runs ≠ [] ->
  Forall (fun run => Str.newline ∉ run) runs ->
  Str.split (Str.join runs) = runs.
Proof. apply split_join_no_newline. Qed.

Lemma split_join_round_trip_witness :
  Str.split (Str.join deck_runs) = deck_runs.
Proof.
  apply (split_join_round_trip deck_runs).
  - discriminate.
  - by_compute.
Defined.

Lemma split_go_count cur s :
  length (Str.split_go cur s)
  = S (length (filter (fun c => c = Str.newline) s)).
Proof.
  revert cur. induction s as [|c s IH]; intros cur; [done|]. simpl.
  case_decide as Hc.
  - rewrite filter_cons_True by done. simpl. by rewrite IH.
  - rewrite filter_cons_False by done. apply IH.
Qed.

Lemma join_newlines (l : list str) :
  length (filter (fun c => c = Str.newline) (Str.join l))
  = (length l - 1)
    + length (filter (fun c => c = Str.newline) (concat l)).
Proof.
  induction l as [|x l IH]; [done|]. destruct l as [|y l].
  - simpl. by rewrite app_nil_r.
  - change (Str.join (x :: y :: l))
      with (x ++ Str.newline :: Str.join (y :: l)).
    change (concat (x :: y :: l)) with (x ++ concat (y :: l)).
    rewrite !filter_app, !length_app.
    rewrite filter_cons_True by done. cbn [length]. rewrite IH.
    cbn [length]. lia.
Qed.

(** X9: the text sent to the service has as many lines as there are
    runs, plus one for every newline inside a run (and one line when
    there is no run at all): a run that contains a newline shifts the
    lines of all the runs after it. *)
Theorem joined_runs_line_count (runs : list str) :
  length (Str.split (Str.join runs))
  = match runs with
    | [] => 1
    | _ :: _ =>
        length runs
        + length (filter (fun c => c = Str.newline) (concat runs))
    end.
Proof.
  unfold Str.split. rewrite split_go_count, join_newlines.
  destruct runs; simpl; lia.
Qed.

(** ** What the extraction hands on *)

Section PipelineFacts.

Context (ET_fromstring : str -> result ET.element).
Context {temperature : Type}.
Context (Edit_create : str -> str -> temperature -> result str).

Lemma extract_inv (save_dir : str) (fs : gmap str str) (count : nat) :
  forall i xml_text attrs xml_text' attrs',
  extract ET_fromstring save_dir fs i count xml_text attrs
  = Ok (xml_text', attrs') ->
  exists news counts,
    xml_text' = xml_text ++ news ∧ attrs' = attrs ++ counts
    ∧ length counts = count ∧ sum_list counts = length news
    ∧ forall k, k < count -> is_Some (fs !! slide_path save_dir (i + k)).
Proof.
  induction count as [|count IH]; intros i xml attrs xml' attrs' H.
  - simpl in H. injection H as <- <-. exists [], [].
    rewrite !app_nil_r. repeat split; try done. intros; lia.
  - cbn [extract] in H.
    destruct (fs !! slide_path save_dir i) as [c|] eqn:Hc; [|done].
    simpl in H. destruct (text_parse ET_fromstring c) as [st|]; [|done].
    simpl in H. apply IH in H as (news & counts & -> & -> & Hl & Hs & Hf).
    exists (st ++ news), (length st :: counts).
    rewrite <- !app_assoc. repeat split; try done.
    + simpl. by rewrite Hl.
    + simpl. rewrite length_app. lia.
    + intros k Hk. destruct k as [|k]; [by rewrite Nat.add_0_r, Hc|].
      replace (i + S k) with (S i + k) by lia. apply Hf. lia.
Qed.

Lemma strings_Ok (items : list (option str)) (runs : list str) :
  Str.strings items = Ok runs -> items = Some <$> runs.
Proof.
  revert runs. induction items as [|[x|] items IH]; intros runs H.
  - by injection H as <-.
  - simpl in H. destruct (Str.strings items) as [xs|]; [|done].
    injection H as <-. csimpl. by rewrite (IH xs).
  - done.
Qed.

(** X6: what [generate_text] returns fits together: there is one count
    per slide, the counts add up to the number of runs, every run is a
    string, every slide file is there, and the response is the answer
    of the service to the runs joined by newlines with the instruction
    that names their number. *)
Theorem generate_text_returns_consistent_counts (save_dir : str)
    (num_slides : nat) (prompt : str) (temp : temperature)
    (fs : gmap str str) (response : str) (xml_text : list (option str))
    (attrs_per_slide : list nat) :
  generate_text ET_fromstring Edit_create save_dir num_slides prompt temp fs
  = Ok (response, xml_text, attrs_per_slide) ->
  length attrs_per_slide = num_slides
  ∧ sum_list attrs_per_slide = length xml_text
  ∧ (forall k, k < num_slides ->
       is_Some (fs !! slide_path save_dir (k + 1)))
  ∧ exists runs,
      xml_text = Some <$> runs
      ∧ Edit_create (Str.join runs) (instruction prompt (length runs)) temp
        = Ok response.
Proof.
  unfold generate_text. intros H.
  destruct (extract _ _ _ _ _ _ _) as [[xml attrs]|] eqn:Hex; [|done].
  simpl in H. unfold Str.join_items in H.
  destruct (Str.strings xml) as [runs|] eqn:Hruns; [|done]. simpl in H.
  destruct (Edit_create _ _ _) as [resp|] eqn:Hresp; [|done].
  injection H as <- <- <-.
  apply extract_inv in Hex as (news & counts & -> & -> & Hl & Hs & Hf).
  simpl in *. apply strings_Ok in Hruns. subst news.
  rewrite length_fmap in Hresp. repeat split; try done.
  - intros k Hk. replace (k + 1) with (1 + k) by lia. by apply Hf.
  - by exists runs.
Qed.

Lemma extract_fails (save_dir : str) (fs : gmap str str) (e : exn)
    (count : nat) :
  forall k i xml_text attrs,
  k < count ->
  (forall j, j < k ->
     exists c tree, fs !! slide_path save_dir (i + j) = Some c
       ∧ ET_fromstring c = Ok tree) ->
  (fs !! slide_path save_dir (i + k) = None ∧ e = FileNotFoundError)
  ∨ (exists c, fs !! slide_path save_dir (i + k) = Some c
       ∧ ET_fromstring c = Raise e) ->
  extract ET_fromstring save_dir fs i count xml_text attrs = Raise e.
Proof.
  induction count as [|count IH]; intros k i xml attrs Hk Hbefore Hfail;
    [lia|].
  cbn [extract]. destruct k as [|k].
  - rewrite Nat.add_0_r in Hfail.
    destruct Hfail as [[-> ->]|(c & -> & Hc)]; [done|].
    simpl. unfold text_parse. by rewrite Hc.
  - destruct (Hbefore 0) as (c & tree & Hc & Ht); [lia|].
    rewrite Nat.add_0_r in Hc. rewrite Hc. simpl.
    unfold text_parse. rewrite Ht. simpl.
    apply (IH k); [lia| |].
    + intros j Hj. destruct (Hbefore (S j)) as (c' & t' & Hc' & Ht'); [lia|].
      exists c', t'. by replace (S i + j) with (i + S j) by lia.
    + by replace (S i + k) with (i + S k) by lia.
Qed.

(** X7: [generate_text] fails at the first slide whose file is missing
    (with [FileNotFoundError]) or does not parse (with the parser's
    exception), whatever the slides after it hold and whatever the
    service would answer. *)
Theorem generate_text_fails_at_first_bad_slide (save_dir : str)
    (num_slides : nat) (prompt : str) (temp : temperature)
    (fs : gmap str str) (k : nat) (e : exn) :
  k < num_slides ->
  (forall j, j < k ->
     exists c tree, fs !! slide_path save_dir (j + 1) = Some c
       ∧ ET_fromstring c = Ok tree) ->
  (fs !! slide_path save_dir (k + 1) = None ∧ e = FileNotFoundError)
  ∨ (exists c, fs !! slide_path save_dir (k + 1) = Some c
       ∧ ET_fromstring c = Raise e) ->
  generate_text ET_fromstring Edit_create save_dir num_slides prompt temp fs
  = Raise e.
Proof.
  intros Hk Hbefore Hfail. unfold generate_text.
  rewrite (extract_fails save_dir fs e num_slides k 1 [] []); [done|done| |].
  - intros j Hj. destruct (Hbefore j Hj) as (c & t & Hc & Ht).
    exists c, t. by replace (1 + j) with (j + 1) by lia.
  - by replace (1 + k) with (k + 1) by lia.
Qed.

(** ** How [edit_text] can fail after [generate_text] *)

Lemma subst_runs_pattern_exn (runs : list str) (responses : list str)
    (n_slide : nat) :
  forall j content,
  j + n_slide <= length runs ->
  j + n_slide <= length responses ->
  (exists content', subst_runs (Some <$> runs) responses j n_slide content
                    = Ok content')
  ∨ (exists e, subst_runs (Some <$> runs) responses j n_slide content = Raise e
               ∧ pattern_exn e).
Proof.
  induction n_slide as [|k IH]; intros j content Hx Hr; [left; by eexists|].
  destruct (lookup_lt_is_Some_2 runs j) as [p Hp]; [lia|].
  destruct (lookup_lt_is_Some_2 responses j) as [r Hrj]; [lia|].
  cbn [subst_runs]. rewrite list_lookup_fmap, Hp, Hrj. simpl.
  destruct (Re.sub p r content) as [c'|e] eqn:Hs; simpl.
  - apply IH; lia.
  - right. exists e. split; [done|]. by eapply Re_sub_exn.
Qed.

Lemma edit_slides_pattern_exn (save_dir : str) (runs : list str)
    (responses : list str) (attrs : list nat) :
  forall i n (fs : gmap str str),
  n + sum_list attrs <= length runs ->
  n + sum_list attrs <= length responses ->
  (forall k, k < length attrs ->
     is_Some (fs !! slide_path save_dir (i + k + 1))) ->
  (edit_slides save_dir (Some <$> runs) responses i n attrs fs).2 = Ok ()
  ∨ (exists e,
       (edit_slides save_dir (Some <$> runs) responses i n attrs fs).2
       = Raise e ∧ pattern_exn e).
Proof.
  induction attrs as [|a attrs IH]; intros i n fs Hx Hr Hfiles; [by left|].
  simpl in Hx, Hr. cbn [edit_slides].
  destruct (Hfiles 0) as [c Hc]; [simpl; lia|].
  rewrite Nat.add_0_r in Hc. rewrite Hc.
  destruct (subst_runs_pattern_exn runs responses a n c)
    as [[c' ->]|(e & -> & He)]; [lia|lia| |].
  - apply IH; [lia|lia|]. intros k Hk.
    destruct (Hfiles (S k)) as [c'' Hc'']; [simpl; lia|].
    replace (S i + k + 1) with (i + S k + 1) by lia.
    rewrite lookup_insert_ne; [by rewrite Hc''|].
    intros Heq. apply slide_path_inj in Heq. lia.
  - right. by exists e.
Qed.


(** ** A service that changes nothing *)

Lemma replace_all_same (old : str) (n : nat) :
  forall s, length s <= n -> replace_all old old s = s.
Proof.
  induction n as [|n IH]; intros s Hn.
  - destruct s; [by simp replace_all|simpl in Hn; lia].
  - destruct s as [|c s]; [by simp replace_all|].
    rewrite replace_all_cons. case_bool_decide as Hp.
    + destruct Hp as [Hne [t Ht]]. rewrite IH.
      * destruct old as [|o old]; [done|]. simpl in *.
        injection Ht as -> ->.
        by rewrite Nat.sub_0_r, drop_app_length.
      * rewrite length_drop. simpl in Hn. lia.
    + f_equal. apply IH. simpl in Hn. lia.
Qed.

Lemma replace_pairs_same (pairs : list (str * str)) (c : str) :
  Forall (fun pr => pr.1 = pr.2) pairs ->
  replace_pairs replace_all pairs c = c.
Proof.
  unfold replace_pairs. induction 1 as [|[old new] pairs Heq _ IH]; [done|].
  simpl in *. subst new. by rewrite (replace_all_same old (length c)).
Qed.

Lemma zip_same {A} (l : list A) : Forall (fun pr => pr.1 = pr.2) (zip l l).
Proof. induction l; constructor; done. Qed.

Lemma echo_lines (runs : list str) :
  Forall one_line_run runs ->
  runs = [] ∨ split_responses (Some <$> runs) (Str.join runs) = runs.
Proof.
  intros Hruns. destruct (decide (runs = [])) as [->|Hne]; [by left|].
  right. assert (Str.split (Str.join runs) = runs) as Hsplit.
  { apply split_join_no_newline; [done|].
    eapply Forall_impl; [exact Hruns|]. by intros run [_ ?]. }
  rewrite split_responses_enough; [done|].
  by rewrite Hsplit, length_fmap.
Qed.


End PipelineFacts.

Lemma generate_text_returns_consistent_counts_witness :
  length [2; 1] = 2 ∧ sum_list [2; 1] = length (Some <$> deck_runs).
Proof.
  destruct (generate_text_returns_consistent_counts Xml.fromstring
              (mock_service french) "deck" 2 "translate to French" 0 deck_fs
              french (Some <$> deck_runs) [2; 1]) as (H1 & H2 & _).
  - vm_compute. reflexivity.
  - split; [exact H1|exact H2].
Defined.

Lemma generate_text_fails_at_first_bad_slide_witness :
  generate_text Xml.fromstring (mock_service french) "deck" 2
    "translate to French" 0 torn_fs
  = Raise FileNotFoundError.
Proof.
  apply (generate_text_fails_at_first_bad_slide Xml.fromstring
           (mock_service french) "deck" 2 "translate to French" 0 torn_fs
           1 FileNotFoundError).
  - lia.
  - intros j Hj. assert (j = 0) as -> by lia.
    eexists; eexists; split; vm_compute; reflexivity.
  - left. split; vm_compute; reflexivity.
Defined.


(** ** When [edit_images] succeeds *)

Lemma sizes_kept_lookup (parts0 parts : gmap str image) (p : str) :
  sizes_kept parts0 parts -> is_Some (parts !! p) <-> is_Some (parts0 !! p).
Proof.
  intros H. specialize (H p).
  destruct (parts !! p), (parts0 !! p); simpl in H; done.
Qed.

Lemma sizes_kept_dom (parts0 parts : gmap str image) :
  sizes_kept parts0 parts -> dom parts = dom parts0.
Proof.
  intros H. apply set_eq. intros p. rewrite !elem_of_dom.
  by apply sizes_kept_lookup.
Qed.

Section ImagesRun.

Context (resample : nat * nat -> image -> str).
Context (Image_create : nat -> str -> str -> result image).

Lemma edit_shape_outcome (parts0 : gmap str image) (save_dir : str) (i : nat)
    (prompt : str) (rels : gmap str str) (sh : shape) (st : env) :
  answers Image_create ->
  sizes_kept parts0 (parts st) ->
  ((edit_shape resample Image_create save_dir i prompt rels sh st).2 = Ok ()
   ∧ (is_picture sh -> resolves parts0 rels sh)
   ∧ length (requests
               (edit_shape resample Image_create save_dir i prompt rels sh
                  st).1)
     = length (requests st) + length (filter is_picture [sh]))
  ∨ ((edit_shape resample Image_create save_dir i prompt rels sh st).2
     = Raise KeyError
     ∧ ¬ (is_picture sh -> resolves parts0 rels sh)).
Proof.
  intros Hans Hsz. unfold edit_shape.
  case_decide as Hkind.
  2:{ left. split; [done|]. split; [done|].
      rewrite filter_cons_False by done. simpl. lia. }
  destruct (rels !! blip_rId sh) as [partname|] eqn:Hrel.
  2:{ right. split; [done|]. intros H.
      destruct (H Hkind) as (pn & Hpn & _). by rewrite Hrel in Hpn. }
  destruct (parts st !! partname) as [old|] eqn:Hold.
  2:{ right. split; [done|]. intros H.
      destruct (H Hkind) as (pn & Hpn & Hsome). rewrite Hrel in Hpn.
      injection Hpn as <-.
      apply (sizes_kept_lookup parts0 (parts st) partname Hsz) in Hsome.
      rewrite Hold in Hsome. by destruct Hsome. }
  left. cbn [fst snd].
  destruct (Hans (length (requests st)) (Str.slice_to 1000 prompt)
              (outputsize (size old).1)) as [generated ->].
  cbn [disk parts requests]. rewrite lookup_insert_eq. cbn [fst snd requests].
  split; [done|]. split.
  - intros _. exists partname. split; [done|].
    apply (sizes_kept_lookup parts0 (parts st) partname Hsz). by rewrite Hold.
  - rewrite length_app, filter_cons_True by done. done.
Qed.

Lemma edit_shapes_outcome (parts0 files : gmap str image) (save_dir : str)
    (i : nat) (prompt : str) (rels : gmap str str) (shs : list shape) :
  answers Image_create ->
  forall st,
  images_inv parts0 files st ->
  ((edit_shapes resample Image_create save_dir i prompt rels shs st).2 = Ok ()
   ∧ shapes_resolve parts0 rels shs
   ∧ length (requests
               (edit_shapes resample Image_create save_dir i prompt rels shs
                  st).1)
     = length (requests st) + length (filter is_picture shs))
  ∨ ((edit_shapes resample Image_create save_dir i prompt rels shs st).2
     = Raise KeyError
     ∧ ¬ shapes_resolve parts0 rels shs).
Proof.
  intros Hans. induction shs as [|sh shs IH]; intros st Hinv.
  - left. split; [done|]. split; [constructor|]. simpl. lia.
  - cbn [edit_shapes].
    pose proof (edit_shape_inv resample Image_create parts0 files save_dir i
                  prompt rels sh st Hinv) as Hinv'.
    destruct (edit_shape_outcome parts0 save_dir i prompt rels sh st Hans
                (proj1 Hinv)) as [(Hok & Hres & Hlen)|(Hko & Hres)].
    + destruct (edit_shape _ _ _ _ _ _ _ _) as [st' [[]|e]]; [|done].
      simpl in *.
      destruct (IH st' Hinv') as [(Hok' & Hres' & Hlen')|(Hko' & Hres')].
      * left. split; [done|]. split; [by constructor|].
        rewrite Hlen', Hlen. rewrite !(filter_cons is_picture), filter_nil.
        case_decide; simpl; lia.
      * right. split; [done|]. intros H. apply Hres'.
        by apply Forall_cons in H as [_ H].
    + destruct (edit_shape _ _ _ _ _ _ _ _) as [st' [[]|e]]; [done|].
      simpl in *. right. split; [done|]. intros H. apply Hres.
      by apply Forall_cons in H as [H _].
Qed.

Lemma edit_image_slides_outcome (parts0 files : gmap str image)
    (save_dir : str) (sls : list slide) :
  answers Image_create ->
  forall i st,
  images_inv parts0 files st ->
  ((edit_image_slides resample Image_create save_dir i sls st).2 = Ok ()
   ∧ all_resolve parts0 sls
   ∧ length (requests
               (edit_image_slides resample Image_create save_dir i sls st).1)
     = length (requests st) + picture_count sls)
  ∨ ((edit_image_slides resample Image_create save_dir i sls st).2
     = Raise KeyError
     ∧ ¬ all_resolve parts0 sls).
Proof.
  intros Hans. induction sls as [|sl sls IH]; intros i st Hinv.
  - left. split; [done|]. split; [constructor|].
    unfold picture_count. simpl. lia.
  - cbn [edit_image_slides].
    pose proof (edit_shapes_inv resample Image_create parts0 files save_dir i
                  (slide_prompt (shapes sl)) (rels sl) (shapes sl) st Hinv)
      as Hinv'.
    destruct (edit_shapes_outcome parts0 files save_dir i
                (slide_prompt (shapes sl)) (rels sl) (shapes sl) Hans st Hinv)
      as [(Hok & Hres & Hlen)|(Hko & Hres)].
    + destruct (edit_shapes _ _ _ _ _ _ _ _) as [st' [[]|e]]; [|done].
      simpl in *.
      destruct (IH (S i) st' Hinv') as [(Hok' & Hres' & Hlen')|(Hko' & Hres')].
      * left. split; [done|]. split; [by constructor|].
        rewrite Hlen', Hlen. unfold picture_count. csimpl. lia.
      * right. split; [done|]. intros H. apply Hres'.
        by apply Forall_cons in H as [_ H].
    + destruct (edit_shapes _ _ _ _ _ _ _ _) as [st' [[]|e]]; [done|].
      simpl in *. right. split; [done|]. intros H. apply Hres.
      by apply Forall_cons in H as [H _].
Qed.


End ImagesRun.

Lemma mock_images_answers : answers mock_images.
Proof. intros k prompt sz. by eexists. Qed.


(** ** What [edit_images] leaves alone *)

Lemma path_join_inj (a b1 b2 : str) :
  path_join a b1 = path_join a b2 -> b1 = b2.
Proof.
  unfold path_join. destruct (last a) as [c|]; [|done].
  case_bool_decide; intros Heq.
  - by apply app_inv_head in Heq.
  - apply app_inv_head in Heq. by apply (app_inv_head ("/" : str)) in Heq.
Qed.

Lemma png_path_inj (save_dir : str) (i j : nat) :
  png_path save_dir i = png_path save_dir j -> i = j.
Proof.
  unfold png_path. intros H. apply path_join_inj in H.
  apply app_inv_head in H. apply app_inv_tail in H. by apply of_nat_inj.
Qed.

Section ImagesFrame.

Context (resample : nat * nat -> image -> str).
Context (Image_create : nat -> str -> str -> result image).

Lemma edit_shape_frame (save_dir : str) (i : nat) (prompt : str)
    (rels : gmap str str) (sh : shape) (st : env) :
  (forall p, (is_picture sh -> rels !! blip_rId sh ≠ Some p) ->
     parts (edit_shape resample Image_create save_dir i prompt rels sh st).1
       !! p = parts st !! p)
  ∧ (forall f, f ≠ png_path save_dir (i + 1) ->
       disk (edit_shape resample Image_create save_dir i prompt rels sh st).1
         !! f = disk st !! f).
Proof.
  unfold edit_shape. case_decide as Hkind; [|done].
  destruct (rels !! blip_rId sh) as [partname|] eqn:Hrel; [|done].
  destruct (parts st !! partname) as [old|]; [|done].
  cbn [fst snd]. destruct (Image_create _ _ _) as [generated|e]; [|done].
  cbn [disk parts requests]. rewrite lookup_insert_eq. cbn [fst parts disk].
  split.
  - intros p Hp. apply lookup_insert_ne. intros ->. by apply Hp.
  - intros f Hf. by apply lookup_insert_ne.
Qed.

Lemma edit_shapes_frame (save_dir : str) (i : nat) (prompt : str)
    (rels : gmap str str) (shs : list shape) :
  forall st,
  (forall p, unreferenced p rels shs ->
     parts (edit_shapes resample Image_create save_dir i prompt rels shs st).1
       !! p = parts st !! p)
  ∧ (forall f, f ≠ png_path save_dir (i + 1) ->
       disk (edit_shapes resample Image_create save_dir i prompt rels shs st).1
         !! f = disk st !! f).
Proof.
  induction shs as [|sh shs IH]; intros st; [done|].
  cbn [edit_shapes].
  destruct (edit_shape_frame save_dir i prompt rels sh st) as [Hp1 Hd1].
  destruct (edit_shape _ _ _ _ _ _ _ _) as [st' [[]|e]].
  - destruct (IH st') as [Hp2 Hd2]. simpl in *. split.
    + intros p Hun. apply Forall_cons in Hun as [Hsh Hun].
      rewrite Hp2 by done. by apply Hp1.
    + intros f Hf. rewrite Hd2 by done. by apply Hd1.
  - simpl in *. split.
    + intros p Hun. apply Forall_cons in Hun as [Hsh Hun]. by apply Hp1.
    + done.
Qed.

Lemma edit_image_slides_frame (save_dir : str) (sls : list slide) :
  forall i st,
  (forall p, Forall (fun sl => unreferenced p (rels sl) (shapes sl)) sls ->
     parts (edit_image_slides resample Image_create save_dir i sls st).1 !! p
     = parts st !! p)
  ∧ (forall f, (forall k, k < length sls -> f ≠ png_path save_dir (i + k + 1)) ->
       disk (edit_image_slides resample Image_create save_dir i sls st).1 !! f
       = disk st !! f).
Proof.
  induction sls as [|sl sls IH]; intros i st; [done|].
  cbn [edit_image_slides].
  destruct (edit_shapes_frame save_dir i (slide_prompt (shapes sl)) (rels sl)
              (shapes sl) st) as [Hp1 Hd1].
  destruct (edit_shapes _ _ _ _ _ _ _ _) as [st' [[]|e]].
  - destruct (IH (S i) st') as [Hp2 Hd2]. simpl in *. split.
    + intros p Hun. apply Forall_cons in Hun as [Hsl Hun].
      rewrite Hp2 by done. by apply Hp1.
    + intros f Hf. rewrite Hd2.
      * apply Hd1. specialize (Hf 0). rewrite Nat.add_0_r in Hf.
        apply Hf. lia.
      * intros k Hk. replace (S (i + k + 1)) with (i + S k + 1) by lia.
        apply Hf. lia.
  - simpl in *. split.
    + intros p Hun. apply Forall_cons in Hun as [Hsl Hun]. by apply Hp1.
    + intros f Hf. apply Hd1. specialize (Hf 0). rewrite Nat.add_0_r in Hf.
      apply Hf. lia.
Qed.


(** ** The prompts *)

Lemma slide_prompt_from (acc : str) (shs : list shape) :
  foldl (fun prompt sh =>
           match shape_text sh with
           | Some t => prompt ++ t ++ " "
           | None => prompt
           end) acc shs
  = acc ++ concat (omap prompt_part shs).
Proof.
  revert acc. induction shs as [|sh shs IH]; intros acc.
  - simpl. by rewrite app_nil_r.
  - cbn [foldl]. rewrite IH.
    change (omap prompt_part (sh :: shs))
      with (match prompt_part sh with
            | Some x => x :: omap prompt_part shs
            | None => omap prompt_part shs
            end).
    unfold prompt_part at 2.
    destruct (shape_text sh) as [t|]; simpl; [|done].
    by rewrite <- !app_assoc.
Qed.

Lemma edit_shapes_prompts (sls : list slide) (sl : slide) (save_dir : str)
    (i : nat) (rels : gmap str str) (shs : list shape) :
  sl ∈ sls ->
  forall st,
  prompts_ok sls (requests st) ->
  prompts_ok sls
    (requests (edit_shapes resample Image_create save_dir i
                 (slide_prompt (shapes sl)) rels shs st).1).
Proof.
  intros Hsl. induction shs as [|sh shs IH]; intros st Hst; [done|].
  cbn [edit_shapes].
  assert (prompts_ok sls
            (requests (edit_shape resample Image_create save_dir i
                         (slide_prompt (shapes sl)) rels sh st).1)) as Hstep.
  { unfold edit_shape. case_decide; [|done].
    destruct (rels !! blip_rId sh); [|done].
    destruct (parts st !! _) as [old|]; [|done]. cbn [fst snd].
    assert (prompts_ok sls
              (requests st ++ [(Str.slice_to 1000 (slide_prompt (shapes sl)),
                                outputsize (size old).1)])) as Hreq.
    { intros req [Hin|Hin]%elem_of_app; [by apply Hst|].
      apply list_elem_of_singleton in Hin as ->. by exists sl. }
    destruct (Image_create _ _ _); [|done].
    cbn [disk parts requests]. by rewrite lookup_insert_eq. }
  destruct (edit_shape _ _ _ _ _ _ _ _) as [st' [[]|e]]; [|done].
  by apply IH.
Qed.

Lemma edit_image_slides_prompts (all : list slide) (save_dir : str)
    (sls : list slide) :
  sls ⊆ all ->
  forall i st,
  prompts_ok all (requests st) ->
  prompts_ok all
    (requests (edit_image_slides resample Image_create save_dir i sls st).1).
Proof.
  induction sls as [|sl sls IH]; intros Hsub i st Hst; [done|].
  cbn [edit_image_slides].
  pose proof (edit_shapes_prompts all sl save_dir i (rels sl) (shapes sl)
                ltac:(apply Hsub; left) st Hst) as Hstep.
  destruct (edit_shapes _ _ _ _ _ _ _ _) as [st' [[]|e]]; [|done].
  apply IH; [|done]. intros x Hx. apply Hsub. by right.
Qed.

(** X13: the prompt of a slide is the text of its shapes that have a
    text, in order, each followed by a space; and the prompt of every
    request [edit_images] sends is the first 1000 characters of the
    prompt of one of the slides, so it is never longer than that. *)
Theorem request_prompts_are_slide_texts (prs : presentation)
    (save_dir : str) (files : gmap str image) :
  (forall shs, slide_prompt shs = concat (omap prompt_part shs))
  ∧ forall req,
      req ∈ requests (edit_images resample Image_create prs save_dir files).1 ->
      length req.1 <= 1000
      ∧ exists sl, sl ∈ slides prs
          ∧ req.1 = take 1000 (slide_prompt (shapes sl)).
Proof.
  split; [intros shs; apply (slide_prompt_from [])|].
  intros req Hin.
  assert (prompts_ok (slides prs)
            (requests (edit_images resample Image_create prs save_dir
                         files).1)) as Hok.
  { unfold edit_images.
    pose proof (edit_image_slides_prompts (slides prs) save_dir (slides prs)
                  ltac:(done) 0 (Env (image_parts prs) files [])) as H.
    destruct (edit_image_slides _ _ _ _ _ _) as [st [[]|e]]; simpl in *;
      apply H; intros r Hr; by apply elem_of_nil in Hr. }
  destruct (Hok req Hin) as (sl & Hsl & Hreq).
  split; [|by exists sl]. rewrite Hreq, length_take. lia.
Qed.

(** ** Slides without pictures *)

Lemma edit_shapes_no_picture (save_dir : str) (i : nat) (prompt : str)
    (rels : gmap str str) (shs : list shape) (st : env) :
  Forall (fun sh => ¬ is_picture sh) shs ->
  edit_shapes resample Image_create save_dir i prompt rels shs st
  = (st, Ok ()).
Proof.
  induction 1 as [|sh shs Hsh _ IH]; [done|].
  cbn [edit_shapes]. unfold edit_shape at 1.
  by rewrite decide_False by done.
Qed.

Lemma edit_image_slides_no_picture (save_dir : str) (sls : list slide) :
  Forall (fun sl => Forall (fun sh => ¬ is_picture sh) (shapes sl)) sls ->
  forall i st,
  edit_image_slides resample Image_create save_dir i sls st = (st, Ok ()).
Proof.
  induction 1 as [|sl sls Hsl _ IH]; intros i st; [done|].
  cbn [edit_image_slides]. by rewrite edit_shapes_no_picture.
Qed.

(** X14: on a presentation without picture shapes [edit_images] sends
    no request, writes no picture file and saves the presentation as it
    was opened. *)
Theorem edit_images_without_pictures (prs : presentation) (save_dir : str)
    (files : gmap str image) :
  Forall (fun sl => Forall (fun sh => ¬ is_picture sh) (shapes sl))
    (slides prs) ->
  edit_images resample Image_create prs save_dir files
  = (Env (image_parts prs) files [], Ok prs).
Proof.
  intros H. unfold edit_images.
  rewrite edit_image_slides_no_picture by done. by destruct prs.
Qed.

End ImagesFrame.

Lemma edit_images_without_pictures_witness :
  edit_images nearest mock_images text_only "deck" ∅
  = (Env (image_parts text_only) ∅ [], Ok text_only).
Proof.
  apply (edit_images_without_pictures nearest mock_images text_only "deck" ∅).
  repeat constructor. discriminate.
Defined.


Lemma request_prompts_are_slide_texts_witness :
  length (("Quarterly results " : str), ("512x512" : str)).1 <= 1000.
Proof.
  apply (proj2 (request_prompts_are_slide_texts nearest mock_images
                  two_pictures "deck" ∅)).
  vm_compute. apply list_elem_of_here.
Defined.
